(** * Group-chat turn taking (public/scripts/group-chats.js)

    A shallow embedding of the member activation resolver
    ([activateSwipe], [activateListOrder], [activateImpersonate],
    [activateNaturalOrder]) and of the generation sequencer
    ([generateGroupWrapper]), followed by the properties of the
    specification that concern them. *)

From Stdlib Require Import QArith Qround.
From stdpp Require Import base list strings gmap.

Local Open Scope Z_scope.

(** ** Data model *)

(** A chat message record, with the fields the sequencer reads.
    [original_avatar] is absent ([None]) on messages written before the
    field was introduced. *)
Record Message := mkMessage {
  msg_name : string;
  msg_is_user : bool;
  msg_is_system : bool;
  msg_mes : string;
  msg_original_avatar : option string;
}.

(** An entry of the character registry.  [char_talkativeness] is [None]
    when [Number(character.talkativeness)] is [NaN]. *)
Record Character := mkCharacter {
  char_name : string;
  char_avatar : string;
  char_talkativeness : option Q;
}.

(** A group: members are referenced by avatar, the stable identifier.
    [activation_strategy] is [None] when the field is null or undefined. *)
Record Group := mkGroup {
  group_id : string;
  group_members : list string;
  group_disabled_members : list string;
  group_activation_strategy : option Z;
  group_allow_self_responses : bool;
}.

Module group_activation_strategy.
Definition NATURAL : Z := 0.
Definition LIST : Z := 1.
End group_activation_strategy.

(** ** JavaScript array helpers *)

(** [Array.prototype.findIndex]: the first index satisfying [p], or -1. *)
Fixpoint findIndex {A} (p : A → bool) (l : list A) : Z :=
  match l with
  | [] => -1
  | x :: l' =>
      if p x then 0
      else let i := findIndex p l' in if i =? -1 then -1 else i + 1
  end.

(** [Array.prototype.find]: the first element satisfying [p], if any. *)
Fixpoint find {A} (p : A → bool) (l : list A) : option A :=
  match l with
  | [] => None
  | x :: l' => if p x then Some x else find p l'
  end.

(** [Array.prototype.includes] on strings. *)
Definition includes (l : list string) (x : string) : bool :=
  bool_decide (x ∈ l).

(** [array[i]] for a numeric index: [None] is JavaScript's [undefined]. *)
Definition at_index {A} (l : list A) (i : Z) : option A :=
  if i <? 0 then None else l !! Z.to_nat i.

(** [Array.prototype.filter] with the callback given the element, its
    index and the array being filtered. *)
Fixpoint filter_from {A} (p : A → nat → bool) (i : nat) (l : list A) : list A :=
  match l with
  | [] => []
  | x :: l' => if p x i then x :: filter_from p (S i) l' else filter_from p (S i) l'
  end.

Definition indexOf (array : list string) (value : string) : Z :=
  findIndex (String.eqb value) array.

(** Modelled from the spec: [onlyUnique] is imported from utils.js, which
    is not among the sources; the specification has it de-duplicate a list
    preserving first-occurrence order, so as a [filter] callback it keeps
    an element exactly at the index of its first occurrence. *)
Definition onlyUnique (value : string) (index : nat) (array : list string) : bool :=
  indexOf array value =? Z.of_nat index.

Definition filter_onlyUnique (array : list string) : list string :=
  filter_from (λ v i, onlyUnique v i array) 0 array.

(** [chat[chat.length - 1]]. *)
Definition last_message (chat : list Message) : option Message := last chat.

(** JavaScript truthiness of an optional string: [undefined] and the empty
    string are falsy. *)
Definition truthy (s : option string) : bool :=
  match s with
  | Some s => negb (String.eqb s "")
  | None => false
  end.

(** ** Member activation resolver *)

Section Resolver.

(** The character registry ([characters] of script.js). *)
Variable characters : list Character.

Definition has_avatar (x : string) (y : Character) : bool :=
  String.eqb (char_avatar y) x.

(** [.map((x) => characters.findIndex((y) => y.avatar === x))
     .filter((x) => x !== -1)] *)
Definition to_memberIds (avatars : list string) : list Z :=
  List.filter (λ x, negb (x =? -1))
    (List.map (λ x, findIndex (has_avatar x) characters) avatars).

(** A source of [Math.random()] values: [rand k] is the [k]-th draw. *)
Variable rand : nat → Q.

(** [Math.floor(Math.random() * n)] on the [k]-th draw, the product
    taken exactly. *)
Definition random_index (k : nat) (n : nat) : Z :=
  Qfloor (rand k * inject_Z (Z.of_nat n)).

Definition activateImpersonate (k : nat) (members : list string) : list Z :=
  let randomIndex := random_index k (length members) in
  let activatedMembers :=
    match at_index members randomIndex with
    | Some m => [m]
    | None => []            (* [undefined] matches no avatar *)
    end in
  to_memberIds activatedMembers.

(** [activateSwipe]: [None] is the [TypeError] raised by reading a field
    of [chat[chat.length - 1]] when the chat is empty. *)
Definition activateSwipe (chat : list Message) (members : list string)
  : option (list Z) :=
  match last_message chat with
  | None => None
  | Some lastMes =>
      let activatedNames :=
        if negb (truthy (msg_original_avatar lastMes)) then
          let matches :=
            List.filter (λ x, String.eqb (char_name x) (msg_name lastMes)) characters in
          match find (λ m, includes members (char_avatar m)) matches with
          | Some m => [char_avatar m]
          | None => []
          end
        else
          match msg_original_avatar lastMes with
          | Some a => [a]
          | None => []
          end in
      Some (to_memberIds activatedNames)
  end.

Definition activateListOrder (members : list string) : list Z :=
  let activatedMembers := filter_onlyUnique members in
  to_memberIds activatedMembers.

(** Words of a string ([extractAllWords] of utils.js, not among the
    sources): kept abstract. *)
Variable extractAllWords : string → list string.

(** [shuffle] of utils.js (not among the sources): kept abstract.  Given
    the position of the next random draw and an array, it returns the
    shuffled array and the position after the draws it consumed. *)
Variable shuffle : nat → list string → list string * nat.

(** [talkativeness_default] of script.js. *)
Variable talkativeness_default : Q.

(** [bannedUser]: [None] stands for the non-string values ([false],
    [undefined]) that no character name is strictly equal to. *)
Definition bannedUser (lastMessage : option Message)
    (allowSelfResponses isUserInput : bool) : option string :=
  if allowSelfResponses then None
  else if isUserInput then None
  else match lastMessage with
       | Some m => if msg_is_user m then None else Some (msg_name m)
       | None => None
       end.

Definition is_banned (banned : option string) (c : Character) : bool :=
  match banned with
  | Some n => String.eqb (char_name c) n
  | None => false
  end.

(** The inner loop of the mention pass for one input word: the first
    member naming the word, if any. *)
Fixpoint mention_of_word (banned : option string) (inputWord : string)
    (members : list string) : list string :=
  match members with
  | [] => []
  | member :: rest =>
      match find (has_avatar member) characters with
      | None => mention_of_word banned inputWord rest
      | Some character =>
          if is_banned banned character then mention_of_word banned inputWord rest
          else if includes (extractAllWords (char_name character)) inputWord
               then [member]
               else mention_of_word banned inputWord rest
      end
  end.

(** find mentions (excluding self) *)
Definition mention_pass (banned : option string) (input : string)
    (members : list string) : list string :=
  if negb (String.eqb input "") then
    List.flat_map (λ w, mention_of_word banned w members) (extractAllWords input)
  else [].

Definition effective_talkativeness (c : Character) : Q :=
  match char_talkativeness c with
  | Some t => t
  | None => talkativeness_default
  end.

(** activation by talkativeness (in shuffled order, except banned); [k]
    is the position of the next random draw. *)
Fixpoint chattiness_pass (banned : option string) (k : nat)
    (shuffledMembers : list string) : list string * nat :=
  match shuffledMembers with
  | [] => ([], k)
  | member :: rest =>
      match find (has_avatar member) characters with
      | None => chattiness_pass banned k rest
      | Some character =>
          if is_banned banned character then chattiness_pass banned k rest
          else
            let rollValue := rand k in
            let talkativeness := effective_talkativeness character in
            let '(more, k') := chattiness_pass banned (S k) rest in
            if Qle_bool rollValue talkativeness
            then (member :: more, k')
            else (more, k')
      end
  end.

(** pick 1 at random if no one was activated: the loop
    [while (activatedMembers.length === 0 && ++retries <= members.length)]
    entered with nobody activated; [left] is the number of retries
    still allowed. *)
Fixpoint guarantee_pass (left : nat) (k : nat) (members : list string)
  : list string :=
  match left with
  | O => []
  | S left' =>
      let randomIndex := random_index k (length members) in
      match at_index members randomIndex with
      | None => guarantee_pass left' (S k) members
      | Some member =>
          match find (has_avatar member) characters with
          | None => guarantee_pass left' (S k) members
          | Some _ => [member]
          end
      end
  end.

(** The activated avatars before de-duplication. *)
Definition natural_activated (members : list string) (input : string)
    (lastMessage : option Message) (allowSelfResponses isUserInput : bool)
    (k : nat) : list string :=
  let banned := bannedUser lastMessage allowSelfResponses isUserInput in
  let mentioned := mention_pass banned input members in
  let '(shuffledMembers, k1) := shuffle k members in
  let '(chatty, k2) := chattiness_pass banned k1 shuffledMembers in
  let activatedMembers := mentioned ++ chatty in
  match activatedMembers with
  | [] => guarantee_pass (length members) k2 members
  | _ => activatedMembers
  end.

Definition activateNaturalOrder (members : list string) (input : string)
    (lastMessage : option Message) (allowSelfResponses isUserInput : bool)
    (k : nat) : list Z :=
  to_memberIds
    (filter_onlyUnique
       (natural_activated members input lastMessage allowSelfResponses isUserInput k)).

End Resolver.

(** ** The state the sequencer runs in

    The module variables of group-chats.js, the variables and page
    elements of script.js the sequencer reads or writes, and the two
    cells ([isGenerationDone], [isGenerationAborted]) of the running call
    that are captured by callbacks handed to collaborators. *)

Record World := mkWorld {
  online_status : string;  (* [online_status] of script.js *)
  is_group_generating : bool;  (* Group generation flag *)
  is_send_press : bool;  (* set by [setSendButtonState] *)
  menu_type : string;  (* set by [setMenuType] *)
  selected_group : option string;  (* [None] is [null] *)
  openGroupId : option string;
  groups : list Group;
  group_generation_id : option Z;
  chat : list Message;  (* the shared chat log *)
  characters : list Character;  (* the character registry *)
  this_chid : option Z;  (* set by [setCharacterId]; [None] is [undefined] *)
  name2 : string;  (* set by [setCharacterName] *)
  send_textarea : string;  (* value of #send_textarea *)
  send_textarea_disabled : bool;  (* its [disabled] attribute *)
  send_buttons_active : bool;  (* [activateSendButtons] / [deactivateSendButtons] *)
  swipe_buttons_shown : bool;  (* [showSwipeButtons] / [hideSwipeButtons] *)
  typing_indicator : option bool;  (* [None]: no indicator in #chat; [Some v]: present, visible iff [v] *)
  streaming_enabled : bool;  (* [isStreamingEnabled()] *)
  multigen_enabled : bool;  (* [isMultigenEnabled()] *)
  streamingProcessor : option bool;  (* [None] when null, else its [isFinished] flag *)
  now : Z;  (* [Date.now()] *)
  signal_aborted : bool;  (* [aborted] of the AbortSignal in [params.signal] *)
  isGenerationDone : bool;  (* cell written by the wrapped [params.resolve] / [params.reject] *)
  isGenerationAborted : bool;  (* cell written by the [onabort] handler *)
}.

Definition set_is_group_generating (v : bool) (w : World) : World :=
  mkWorld
    (online_status w) v (is_send_press w) (menu_type w) (selected_group w)
     (openGroupId w) (groups w) (group_generation_id w) (chat w)
     (characters w) (this_chid w) (name2 w) (send_textarea w)
     (send_textarea_disabled w) (send_buttons_active w)
     (swipe_buttons_shown w) (typing_indicator w) (streaming_enabled w)
     (multigen_enabled w) (streamingProcessor w) (now w) (signal_aborted w)
     (isGenerationDone w) (isGenerationAborted w).

Definition set_is_send_press (v : bool) (w : World) : World :=
  mkWorld
    (online_status w) (is_group_generating w) v (menu_type w)
     (selected_group w) (openGroupId w) (groups w) (group_generation_id w)
     (chat w) (characters w) (this_chid w) (name2 w) (send_textarea w)
     (send_textarea_disabled w) (send_buttons_active w)
     (swipe_buttons_shown w) (typing_indicator w) (streaming_enabled w)
     (multigen_enabled w) (streamingProcessor w) (now w) (signal_aborted w)
     (isGenerationDone w) (isGenerationAborted w).

Definition set_menu_type (v : string) (w : World) : World :=
  mkWorld
    (online_status w) (is_group_generating w) (is_send_press w) v
     (selected_group w) (openGroupId w) (groups w) (group_generation_id w)
     (chat w) (characters w) (this_chid w) (name2 w) (send_textarea w)
     (send_textarea_disabled w) (send_buttons_active w)
     (swipe_buttons_shown w) (typing_indicator w) (streaming_enabled w)
     (multigen_enabled w) (streamingProcessor w) (now w) (signal_aborted w)
     (isGenerationDone w) (isGenerationAborted w).

Definition set_openGroupId (v : option string) (w : World) : World :=
  mkWorld
    (online_status w) (is_group_generating w) (is_send_press w) (menu_type w)
     (selected_group w) v (groups w) (group_generation_id w) (chat w)
     (characters w) (this_chid w) (name2 w) (send_textarea w)
     (send_textarea_disabled w) (send_buttons_active w)
     (swipe_buttons_shown w) (typing_indicator w) (streaming_enabled w)
     (multigen_enabled w) (streamingProcessor w) (now w) (signal_aborted w)
     (isGenerationDone w) (isGenerationAborted w).

Definition set_group_generation_id (v : option Z) (w : World) : World :=
  mkWorld
    (online_status w) (is_group_generating w) (is_send_press w) (menu_type w)
     (selected_group w) (openGroupId w) (groups w) v (chat w) (characters w)
     (this_chid w) (name2 w) (send_textarea w) (send_textarea_disabled w)
     (send_buttons_active w) (swipe_buttons_shown w) (typing_indicator w)
     (streaming_enabled w) (multigen_enabled w) (streamingProcessor w) (now w)
     (signal_aborted w) (isGenerationDone w) (isGenerationAborted w).

Definition set_this_chid (v : option Z) (w : World) : World :=
  mkWorld
    (online_status w) (is_group_generating w) (is_send_press w) (menu_type w)
     (selected_group w) (openGroupId w) (groups w) (group_generation_id w)
     (chat w) (characters w) v (name2 w) (send_textarea w)
     (send_textarea_disabled w) (send_buttons_active w)
     (swipe_buttons_shown w) (typing_indicator w) (streaming_enabled w)
     (multigen_enabled w) (streamingProcessor w) (now w) (signal_aborted w)
     (isGenerationDone w) (isGenerationAborted w).

Definition set_name2 (v : string) (w : World) : World :=
  mkWorld
    (online_status w) (is_group_generating w) (is_send_press w) (menu_type w)
     (selected_group w) (openGroupId w) (groups w) (group_generation_id w)
     (chat w) (characters w) (this_chid w) v (send_textarea w)
     (send_textarea_disabled w) (send_buttons_active w)
     (swipe_buttons_shown w) (typing_indicator w) (streaming_enabled w)
     (multigen_enabled w) (streamingProcessor w) (now w) (signal_aborted w)
     (isGenerationDone w) (isGenerationAborted w).

Definition set_send_textarea (v : string) (w : World) : World :=
  mkWorld
    (online_status w) (is_group_generating w) (is_send_press w) (menu_type w)
     (selected_group w) (openGroupId w) (groups w) (group_generation_id w)
     (chat w) (characters w) (this_chid w) (name2 w) v
     (send_textarea_disabled w) (send_buttons_active w)
     (swipe_buttons_shown w) (typing_indicator w) (streaming_enabled w)
     (multigen_enabled w) (streamingProcessor w) (now w) (signal_aborted w)
     (isGenerationDone w) (isGenerationAborted w).

Definition set_send_textarea_disabled (v : bool) (w : World) : World :=
  mkWorld
    (online_status w) (is_group_generating w) (is_send_press w) (menu_type w)
     (selected_group w) (openGroupId w) (groups w) (group_generation_id w)
     (chat w) (characters w) (this_chid w) (name2 w) (send_textarea w) v
     (send_buttons_active w) (swipe_buttons_shown w) (typing_indicator w)
     (streaming_enabled w) (multigen_enabled w) (streamingProcessor w) (now w)
     (signal_aborted w) (isGenerationDone w) (isGenerationAborted w).

Definition set_send_buttons_active (v : bool) (w : World) : World :=
  mkWorld
    (online_status w) (is_group_generating w) (is_send_press w) (menu_type w)
     (selected_group w) (openGroupId w) (groups w) (group_generation_id w)
     (chat w) (characters w) (this_chid w) (name2 w) (send_textarea w)
     (send_textarea_disabled w) v (swipe_buttons_shown w) (typing_indicator w)
     (streaming_enabled w) (multigen_enabled w) (streamingProcessor w) (now w)
     (signal_aborted w) (isGenerationDone w) (isGenerationAborted w).

Definition set_swipe_buttons_shown (v : bool) (w : World) : World :=
  mkWorld
    (online_status w) (is_group_generating w) (is_send_press w) (menu_type w)
     (selected_group w) (openGroupId w) (groups w) (group_generation_id w)
     (chat w) (characters w) (this_chid w) (name2 w) (send_textarea w)
     (send_textarea_disabled w) (send_buttons_active w) v (typing_indicator w)
     (streaming_enabled w) (multigen_enabled w) (streamingProcessor w) (now w)
     (signal_aborted w) (isGenerationDone w) (isGenerationAborted w).

Definition set_typing_indicator (v : option bool) (w : World) : World :=
  mkWorld
    (online_status w) (is_group_generating w) (is_send_press w) (menu_type w)
     (selected_group w) (openGroupId w) (groups w) (group_generation_id w)
     (chat w) (characters w) (this_chid w) (name2 w) (send_textarea w)
     (send_textarea_disabled w) (send_buttons_active w)
     (swipe_buttons_shown w) v (streaming_enabled w) (multigen_enabled w)
     (streamingProcessor w) (now w) (signal_aborted w) (isGenerationDone w)
     (isGenerationAborted w).

Definition set_isGenerationDone (v : bool) (w : World) : World :=
  mkWorld
    (online_status w) (is_group_generating w) (is_send_press w) (menu_type w)
     (selected_group w) (openGroupId w) (groups w) (group_generation_id w)
     (chat w) (characters w) (this_chid w) (name2 w) (send_textarea w)
     (send_textarea_disabled w) (send_buttons_active w)
     (swipe_buttons_shown w) (typing_indicator w) (streaming_enabled w)
     (multigen_enabled w) (streamingProcessor w) (now w) (signal_aborted w) v
     (isGenerationAborted w).

Definition set_isGenerationAborted (v : bool) (w : World) : World :=
  mkWorld
    (online_status w) (is_group_generating w) (is_send_press w) (menu_type w)
     (selected_group w) (openGroupId w) (groups w) (group_generation_id w)
     (chat w) (characters w) (this_chid w) (name2 w) (send_textarea w)
     (send_textarea_disabled w) (send_buttons_active w)
     (swipe_buttons_shown w) (typing_indicator w) (streaming_enabled w)
     (multigen_enabled w) (streamingProcessor w) (now w) (signal_aborted w)
     (isGenerationDone w) v.

Definition set_chat (v : list Message) (w : World) : World :=
  mkWorld
    (online_status w) (is_group_generating w) (is_send_press w) (menu_type w)
     (selected_group w) (openGroupId w) (groups w) (group_generation_id w)
     v (characters w) (this_chid w) (name2 w) (send_textarea w)
     (send_textarea_disabled w) (send_buttons_active w)
     (swipe_buttons_shown w) (typing_indicator w) (streaming_enabled w)
     (multigen_enabled w) (streamingProcessor w) (now w) (signal_aborted w)
     (isGenerationDone w) (isGenerationAborted w).

Definition set_online_status (v : string) (w : World) : World :=
  mkWorld
    v (is_group_generating w) (is_send_press w) (menu_type w)
     (selected_group w) (openGroupId w) (groups w) (group_generation_id w)
     (chat w) (characters w) (this_chid w) (name2 w) (send_textarea w)
     (send_textarea_disabled w) (send_buttons_active w)
     (swipe_buttons_shown w) (typing_indicator w) (streaming_enabled w)
     (multigen_enabled w) (streamingProcessor w) (now w) (signal_aborted w)
     (isGenerationDone w) (isGenerationAborted w).

(** ** A monad for asynchronous calls: state, exceptions, trace *)

Inductive Exn :=
| Error (message : string)
| TypeError.

(** What a call asked of its collaborators, in order. *)
Inductive Event :=
| Toast (message : string)
| SystemMessage (type : string)
| GenerateCall (generateType : string) (chid : Z) (automatic_trigger : bool)
| SendMessageAsUser (text bias : string)
| SaveChat.

(** A call has returned, has thrown, or is still suspended in its polling
    loop when the observation ends. *)
Inductive Outcome (A : Type) :=
| Returned (a : A)
| Thrown (e : Exn)
| Pending.
Arguments Returned {A} a.
Arguments Thrown {A} e.
Arguments Pending {A}.

Definition M (A : Type) : Type := World → Outcome A * World * list Event.

Definition ret {A} (a : A) : M A := λ w, (Returned a, w, []).

Definition bind {A B} (m : M A) (f : A → M B) : M B := λ w,
  match m w with
  | (Returned a, w1, t1) => let '(o, w2, t2) := f a w1 in (o, w2, t1 ++ t2)
  | (Thrown e, w1, t1) => (Thrown e, w1, t1)
  | (Pending, w1, t1) => (Pending, w1, t1)
  end.

#[global] Instance M_ret : MRet M := @ret.
#[global] Instance M_bind : MBind M := λ A B f m, bind m f.

Definition throw {A} (e : Exn) : M A := λ w, (Thrown e, w, []).
Definition pending {A} : M A := λ w, (Pending, w, []).
Definition get : M World := λ w, (Returned w, w, []).
Definition modify (f : World → World) : M unit := λ w, (Returned tt, f w, []).
Definition emit (e : Event) : M unit := λ w, (Returned tt, w, [e]).

(** [try { body } finally { fin }]: [fin] runs when [body] returns or
    throws, and the outcome of [body] stands unless [fin] itself throws. *)
Definition try_finally {A} (body : M A) (fin : M unit) : M A := λ w,
  match body w with
  | (Pending, w1, t1) => (Pending, w1, t1)
  | (o, w1, t1) =>
      match fin w1 with
      | (Returned _, w2, t2) => (o, w2, t1 ++ t2)
      | (Thrown e, w2, t2) => (Thrown e, w2, t1 ++ t2)
      | (Pending, w2, t2) => (Pending, w2, t1 ++ t2)
      end
  end.

(** A collaborator outside this module, called and, when asynchronous,
    awaited: the state found when the call settles (its own effect and
    whatever else ran on the page meanwhile), and the exception it
    raised, if any. *)
Definition External : Type := World → World * option Exn.

Definition call (f : External) : M unit := λ w,
  match f w with
  | (w', None) => (Returned tt, w', [])
  | (w', Some e) => (Thrown e, w', [])
  end.

(** ** Collaborators of script.js with a known effect *)

(** Modelled from the spec: the setters imported from script.js, which is
    not among the sources.  The specification lists them as the signals
    the sequencer produces: enabling and disabling the send affordances,
    showing and hiding the swipe buttons, and setting or clearing the
    active character context. *)
Definition setSendButtonState (value : bool) : M unit :=
  modify (set_is_send_press value).
Definition setCharacterId (value : option Z) : M unit :=
  modify (set_this_chid value).
Definition setCharacterName (value : string) : M unit :=
  modify (set_name2 value).
Definition setMenuType (value : string) : M unit :=
  modify (set_menu_type value).
Definition activateSendButtons : M unit :=
  modify (set_send_buttons_active true).
Definition deactivateSendButtons : M unit :=
  modify (set_send_buttons_active false).
Definition showSwipeButtons : M unit :=
  modify (set_swipe_buttons_shown true).
Definition hideSwipeButtons : M unit :=
  modify (set_swipe_buttons_shown false).

(** [toastr.warning(message)] *)
Definition toastr_warning (message : string) : M unit := emit (Toast message).

(** ** Generation turn sequencer *)

(** The [params] argument, as far as the sequencer inspects it. *)
Record Params := mkParams {
  force_chid : option Z;   (* [Some c] when [typeof params.force_chid == 'number'] *)
  signal : bool;           (* [params.signal instanceof AbortSignal] *)
  resolve : bool;          (* [typeof params.resolve === 'function'] *)
  reject : bool;           (* [typeof params.reject === 'function'] *)
}.

(** The value a call returns: [return;] and falling off the end give
    [undefined], the mutual-exclusion guard gives [false]. *)
Inductive RetVal := RetUndefined | RetFalse.

(** [type === s] for the optional [type] argument ([None] is [null]). *)
Definition type_is (type : option string) (s : string) : bool :=
  match type with
  | Some t => String.eqb t s
  | None => false
  end.

(** [select_group_chats(groupId)]: the state it leaves behind; what it
    renders is not modelled. *)
Definition select_group_chats (groupId : option string) : M unit :=
  modify (set_openGroupId groupId);;
  w ← get;
  let group :=
    match groupId with
    | Some g =>
        if String.eqb g "" then None   (* a falsy [openGroupId] *)
        else find (λ x, String.eqb (group_id x) g) (groups w)
    | None => None
    end in
  setMenuType (if group is Some _ then "group_edit" else "group_create").

Section Sequencer.

(** Collaborators kept abstract. *)
Variable Generate : string → bool → Params → External.
Variable sendMessageAsUser : string → string → External.
Variable saveChatConditional : External.
Variable sendSystemMessage : string → World → World.
Variable getBiasStrings : string → option string → string.

(** What the rest of the page does to the state while the call is
    suspended in [await delay(ms)].  The state carries the clock [now],
    so the page may act differently at each suspension. *)
Variable env : World → World.

Variable rand : nat → Q.
Variable extractAllWords : string → list string.
Variable shuffle : nat → list string → list string * nat.
Variable talkativeness_default : Q.

Definition delay : M unit := modify env.

(** The group the call works on: [groups.find((x) => x.id ===
    selected_group)]. *)
Definition current_group (w : World) : option Group :=
  match selected_group w with
  | Some g => find (λ x, String.eqb (group_id x) g) (groups w)
  | None => None
  end.

(** Member resolution: the chain of [if]s that fills [activatedMembers]. *)
Definition resolve_members (type : option string) (params : Params)
    (group : Group) (activationText : string) (lastMessage : option Message)
    (isUserInput : bool) : M (list Z) :=
  w ← get;
  let activationStrategy :=
    default group_activation_strategy.NATURAL (group_activation_strategy group) in
  let enabledMembers :=
    List.filter (λ x, negb (includes (group_disabled_members group) x))
      (group_members group) in
  match force_chid params with
  | Some chid => ret [chid]
  | None =>
      if type_is type "quiet" then
        match activateSwipe (characters w) (chat w) (group_members group) with
        | None => throw TypeError
        | Some [] =>
            ret (activateListOrder (characters w) (take 1 (group_members group)))
        | Some activatedMembers => ret activatedMembers
        end
      else if type_is type "swipe" || type_is type "continue" then
        match activateSwipe (characters w) (chat w) (group_members group) with
        | None => throw TypeError
        | Some [] =>
            toastr_warning
              "Deleted group member swiped. To get a reply, add them back to the group.";;
            throw (Error "Deleted group member swiped")
        | Some activatedMembers => ret activatedMembers
        end
      else if type_is type "impersonate" then
        modify (set_send_textarea_disabled true);;
        ret (activateImpersonate (characters w) rand 0 (group_members group))
      else if activationStrategy =? group_activation_strategy.NATURAL then
        ret (activateNaturalOrder (characters w) rand extractAllWords shuffle
                talkativeness_default enabledMembers activationText lastMessage
                (group_allow_self_responses group) isUserInput 0)
      else if activationStrategy =? group_activation_strategy.LIST then
        ret (activateListOrder (characters w) enabledMembers)
      else ret []
  end.

(** The completion detector: the [while (true)] loop that waits for the
    current member's generation, observed for at most [fuel] rounds.
    It returns the updated [messagesBefore]. *)
Fixpoint poll (fuel : nat) (type : option string) (generateType : string)
    (userInput lastMessageText : string) (messagesBefore : nat) : M nat :=
  match fuel with
  | O => pending
  | S fuel' =>
      let again :=
        delay;; poll fuel' type generateType userInput lastMessageText messagesBefore in
      deactivateSendButtons;;
      w ← get;
      if isGenerationAborted w then throw (Error "Group generation aborted")
      else if String.eqb generateType "group_chat" && negb (multigen_enabled w)
              && (length (chat w) =? messagesBefore)%nat then again
      else if type_is type "swipe" then
        if streaming_enabled w then
          match streamingProcessor w with
          | Some false => again
          | _ => ret messagesBefore
          end
        else if multigen_enabled w then
          if isGenerationDone w then ret messagesBefore else again
        else
          match last_message (chat w) with
          | None => throw TypeError
          | Some m =>
              if String.eqb lastMessageText (msg_mes m) then again
              else ret messagesBefore
          end
      else if type_is type "impersonate" then
        if streaming_enabled w then
          match streamingProcessor w with
          | Some false => again
          | _ => ret messagesBefore
          end
        else if multigen_enabled w then
          if isGenerationDone w then ret messagesBefore else again
        else
          if String.eqb (send_textarea w) "" || String.eqb (send_textarea w) userInput
          then again
          else ret messagesBefore
      else if type_is type "quiet" then
        if isGenerationDone w then ret messagesBefore else again
      else if multigen_enabled w then
        if isGenerationDone w then ret (S messagesBefore) else again
      else if streaming_enabled w then
        match streamingProcessor w with
        | Some false => again
        | _ => ret (S messagesBefore)
        end
      else ret (S messagesBefore)
  end.

Definition generateType_of (type : option string) : string :=
  match type with
  | Some t =>
      if String.eqb t "swipe" || String.eqb t "impersonate" || String.eqb t "quiet"
         || String.eqb t "continue"
      then t else "group_chat"
  | None => "group_chat"
  end.

(** [characters[chId].name], a [TypeError] when there is no such entry. *)
Definition character_name (chId : Z) : M string :=
  w ← get;
  match at_index (characters w) chId with
  | Some c => ret (char_name c)
  | None => throw TypeError
  end.

(** now the real generation begins: cycle through every activated
    character *)
Fixpoint generate_members (fuel : nat) (by_auto_mode : bool)
    (type : option string) (params : Params) (userInput lastMessageText : string)
    (activatedMembers : list Z) (messagesBefore : nat) : M unit :=
  match activatedMembers with
  | [] => ret tt
  | chId :: rest =>
      deactivateSendButtons;;
      modify (set_isGenerationDone false);;
      let generateType := generateType_of type in
      setCharacterId (Some chId);;
      name ← character_name chId;
      setCharacterName name;;
      emit (GenerateCall generateType chId by_auto_mode);;
      call (Generate generateType by_auto_mode params);;
      w ← get;
      (if negb (type_is type "swipe") && negb (type_is type "impersonate")
          && negb (multigen_enabled w) && negb (streaming_enabled w)
       then
         (* update indicator and scroll down *)
         _ ← character_name chId;
         modify (λ w, set_typing_indicator ((λ _, true) <$> typing_indicator w) w)
       else ret tt);;
      messagesBefore' ← poll fuel type generateType userInput lastMessageText messagesBefore;
      generate_members fuel by_auto_mode type params userInput lastMessageText
        rest messagesBefore'
  end.

(** The body of the [try] block. *)
Definition generation_phase (fuel : nat) (by_auto_mode : bool)
    (type : option string) (params : Params) (group : Group) : M unit :=
  hideSwipeButtons;;
  modify (set_is_group_generating true);;
  setCharacterName "";;
  setCharacterId None;;
  w ← get;
  let userInput := send_textarea w in
  (if bool_decide (typing_indicator w = None) && negb (streaming_enabled w)
   then modify (set_typing_indicator (Some false))
   else ret tt);;
  (* id of this specific batch for regeneration purposes *)
  modify (set_group_generation_id (Some (now w)));;
  let lastMessage := last_message (chat w) in
  let messagesBefore := length (chat w) in
  let lastMessageText := from_option msg_mes "" lastMessage in
  modify (set_isGenerationDone false);;
  modify (set_isGenerationAborted false);;
  let isUserInput := negb (String.eqb userInput "") && negb by_auto_mode in
  let activationText :=
    if isUserInput then userInput
    else match lastMessage with
         | Some m => if msg_is_system m then "" else msg_mes m
         | None => ""
         end in
  let messagesBefore := if isUserInput then S messagesBefore else messagesBefore in
  (if signal params && signal_aborted w
   then throw (Error "Already aborted signal passed. Group generation stopped")
   else ret tt);;
  activatedMembers ← resolve_members type params group activationText lastMessage isUserInput;
  (if (length activatedMembers =? 0)%nat then
     toastr_warning "All group members are disabled. Enable at least one to get a reply.";;
     (* Send user message as is *)
     let messageBias := getBiasStrings userInput type in
     emit (SendMessageAsUser userInput messageBias);;
     call (sendMessageAsUser userInput messageBias);;
     emit SaveChat;;
     call saveChatConditional;;
     modify (set_send_textarea "")
   else ret tt);;
  generate_members fuel by_auto_mode type params userInput lastMessageText
    activatedMembers messagesBefore.

(** The [finally] block. *)
Definition cleanup : M unit :=
  (* hide and reapply the indicator to the bottom of the list *)
  modify (λ w, set_typing_indicator ((λ _, false) <$> typing_indicator w) w);;
  modify (set_is_group_generating false);;
  modify (set_send_textarea_disabled false);;
  setSendButtonState false;;
  setCharacterId None;;
  setCharacterName "";;
  activateSendButtons;;
  showSwipeButtons.

(** Auto-navigate back to group menu *)
Definition navigate : M unit :=
  w ← get;
  if negb (String.eqb (menu_type w) "group_edit") then
    select_group_chats (selected_group w);;
    delay
  else ret tt.

Definition generateGroupWrapper (fuel : nat) (by_auto_mode : bool)
    (type : option string) (params : Params) : M RetVal :=
  w ← get;
  if String.eqb (online_status w) "no_connection" then
    modify (set_is_group_generating false);;
    setSendButtonState false;;
    ret RetUndefined
  else if is_group_generating w then ret RetFalse
  else
    navigate;;
    w ← get;
    match current_group w with
    | Some group =>
        if (length (group_members group) =? 0)%nat then
          emit (SystemMessage "empty");;
          modify (sendSystemMessage "empty");;
          ret RetUndefined
        else
          try_finally (generation_phase fuel by_auto_mode type params group) cleanup;;
          ret RetUndefined
    | None =>
        emit (SystemMessage "empty");;
        modify (sendSystemMessage "empty");;
        ret RetUndefined
    end.

End Sequencer.

(** * Vocabulary of the properties *)

(** ** Predicates on the resolver's inputs *)

(** The avatar [a] resolves in the character registry. *)
Definition resolvable (characters : list Character) (a : string) : Prop :=
  is_Some (find (has_avatar a) characters).

(** The draws of [Math.random()] lie in the interval [0, 1). *)
Definition unit_draws (rand : nat → Q) : Prop :=
  ∀ k, (0 <= rand k)%Q ∧ (rand k < 1)%Q.

(** A member a pass may activate: it resolves to a character that is
    not the banned one. *)
Definition eligible (characters : list Character) (banned : option string)
    (member : string) : Prop :=
  ∃ c, find (has_avatar member) characters = Some c ∧ is_banned banned c = false.

(** ** Predicates on the sequencer's states *)

(** The state in which the group is looked up: the one the call started
    in or, when it had to navigate back to the group menu, the one it
    found after the awaited delay. *)
Definition after_navigate (env : World → World) (w : World) : World :=
  (navigate env w).1.2.

(** The system is idle and the user can type and send again. *)
Definition idle (w : World) : Prop :=
  is_group_generating w = false ∧
  send_textarea_disabled w = false ∧
  is_send_press w = false ∧
  send_buttons_active w = true ∧
  this_chid w = None ∧
  name2 w = "".

(** The call enters its generation phase: it passes both guards and
    finds the selected group, with members, after navigating. *)
Definition enters (env : World → World) (w : World) (group : Group) : Prop :=
  online_status w ≠ "no_connection" ∧
  is_group_generating w = false ∧
  current_group (after_navigate env w) = Some group ∧
  group_members group ≠ [].

(** The state in which members are resolved, [w] being the state in which
    the [try] block is entered. *)
Definition prepare (w : World) : World :=
  let w1 :=
    set_this_chid None
      (set_name2 "" (set_is_group_generating true (set_swipe_buttons_shown false w))) in
  let w2 :=
    if bool_decide (typing_indicator w = None) && negb (streaming_enabled w)
    then set_typing_indicator (Some false) w1 else w1 in
  set_isGenerationAborted false
    (set_isGenerationDone false (set_group_generation_id (Some (now w)) w2)).

(** [isUserInput] and [activationText] as the [try] block computes them. *)
Definition isUserInput_of (by_auto_mode : bool) (w : World) : bool :=
  negb (String.eqb (send_textarea w) "") && negb by_auto_mode.

Definition activationText_of (by_auto_mode : bool) (w : World) : string :=
  if isUserInput_of by_auto_mode w then send_textarea w
  else match last_message (chat w) with
       | Some m => if msg_is_system m then "" else msg_mes m
       | None => ""
       end.

(** The request is resolved by the group's activation policy: no member
    is forced and the kind is none of quiet, swipe, continue,
    impersonate. *)
Definition by_policy (type : option string) (params : Params) : Prop :=
  force_chid params = None ∧
  ∀ s, s ∈ ["quiet"; "swipe"; "continue"; "impersonate"] → type ≠ Some s.

(** [m2] settles as [m1] does wherever [m1] settles: used to compare a
    call under two bounds on the rounds of polling. *)
Definition refines {A} (m1 m2 : M A) : Prop :=
  ∀ w, (m1 w).1.1 ≠ Pending → m2 w = m1 w.

(** ** Concrete collaborators and pages for closed instances *)

(** A [shuffle] that leaves the order alone and consumes one draw per
    element. *)
Definition shuffle_keep (k : nat) (array : list string) : list string * nat :=
  (array, (k + length array)%nat).

(** A tokenizer that takes the whole string as its single word. *)
Definition one_word (s : string) : list string := [s].

(** Every draw of [Math.random()] is 1/4. *)
Definition quarter_draws : nat → Q := λ _, (1 # 4)%Q.

(** A registry with a single, silent character. *)
Definition c3_characters : list Character :=
  [mkCharacter "Yuna" "yuna.png" (Some 0%Q)].

(** The scenario of two members, one talkative and one silent. *)
Module Scenario.

Definition alice : Character := mkCharacter "Alice" "alice.png" (Some 1%Q).
Definition bob : Character := mkCharacter "Bob" "bob.png" (Some 0%Q).
Definition registry : list Character := [alice; bob].
Definition members : list string := ["alice.png"; "bob.png"].

(** The last message, written by Alice. *)
Definition from_alice (mes : string) : Message :=
  mkMessage "Alice" false false mes (Some "alice.png").

(** A non-user-triggered natural turn after Alice spoke, self-responses
    disallowed; the activation text is her message. *)
Definition turn rand extractAllWords shuffle talkativeness_default (mes : string)
  : list Z :=
  activateNaturalOrder registry rand extractAllWords shuffle talkativeness_default
    members mes (Some (from_alice mes)) false false 0.

Definition banned (mes : string) : option string :=
  bannedUser (Some (from_alice mes)) false false.

(** What the mention and chattiness passes activate in that turn. *)
Definition before_guarantee rand extractAllWords
    (shuffle : nat → list string → list string * nat) talkativeness_default
    (mes : string) : list string :=
  mention_pass registry extractAllWords (banned mes) mes members ++
  (chattiness_pass registry rand talkativeness_default (banned mes)
     (shuffle 0%nat members).2 (shuffle 0%nat members).1).1.

End Scenario.

Module Demo.

Definition group1 : Group :=
  mkGroup "g1" Scenario.members [] (Some group_activation_strategy.LIST) false.

(** The same group with its first member disabled. *)
Definition group2 : Group :=
  mkGroup "g1" Scenario.members ["alice.png"] (Some group_activation_strategy.LIST)
    false.

(** The same group with every member disabled. *)
Definition group3 : Group :=
  mkGroup "g1" Scenario.members Scenario.members
    (Some group_activation_strategy.NATURAL) false.

Definition user_says (mes : string) : Message := mkMessage "You" true false mes None.

(** An idle, connected page showing the group [gs] picks, with one user
    message in the chat and [input] typed in the send box. *)
Definition page (gs : list Group) (input : string) : World :=
  mkWorld "connected" false false "group_edit" (Some "g1") (Some "g1") gs None
    [user_says "hello"] Scenario.registry None "" input false true true None
    false false None 1000 false false false.

(** The same page while a cycle is in flight. *)
Definition busy_page : World := set_is_group_generating true (page [group1] "").

(** A backend that answers at once: the text typed in the send box, if
    any, and then the active character's reply are in the chat when
    [Generate] returns. *)
Definition Generate (generateType : string) (automatic_trigger : bool)
    (params : Params) : External :=
  λ w,
    let w1 :=
      if String.eqb (send_textarea w) "" then w
      else set_send_textarea "" (set_chat (chat w ++ [user_says (send_textarea w)]) w) in
    (set_chat (chat w1 ++ [mkMessage (name2 w1) false false "..." None]) w1, None).

(** A backend that is never heard of again. *)
Definition Generate_silent (generateType : string) (automatic_trigger : bool)
    (params : Params) : External :=
  λ w, (w, None).

(** A backend whose request fails. *)
Definition Generate_failing (generateType : string) (automatic_trigger : bool)
    (params : Params) : External :=
  λ w, (w, Some (Error "request failed")).

Definition sendMessageAsUser (text bias : string) : External :=
  λ w, (set_chat (chat w ++ [user_says text]) w, None).
Definition saveChatConditional : External := λ w, (w, None).
Definition sendSystemMessage (type : string) (w : World) : World := w.
Definition getBiasStrings (text : string) (type : option string) : string := "".

(** Nothing else happens on the page while the call is suspended. *)
Definition env (w : World) : World := w.

(** The stop button is pressed while the call is suspended. *)
Definition env_stop (w : World) : World := set_isGenerationAborted true w.

Definition no_params : Params := mkParams None false false false.

Definition run (generate : string → bool → Params → External) (env : World → World)
    (fuel : nat) (by_auto_mode : bool) (type : option string) (params : Params)
  : M RetVal :=
  generateGroupWrapper generate sendMessageAsUser saveChatConditional
    sendSystemMessage getBiasStrings env quarter_draws one_word shuffle_keep
    (1 # 2)%Q fuel by_auto_mode type params.

Definition resolve (type : option string) (params : Params) (group : Group)
    (w : World) : Outcome (list Z) * World * list Event :=
  resolve_members quarter_draws one_word shuffle_keep (1 # 2)%Q type params group
    "hello" (last_message (chat w)) false w.

(** A cycle in flight: the state in which a call on the example page is
    suspended, polling for a reply that does not come. *)
Definition in_flight : World :=
  (run Generate_silent env 3 false None no_params (page [group1] "")).1.2.

(** The connection drops while that cycle is in flight, a further call is
    made, and the connection comes back. *)
Definition dropped : World := set_online_status "no_connection" in_flight.
Definition after_dropped_call : World :=
  (run Generate env 3 false None no_params dropped).1.2.
Definition restored : World := set_online_status "connected" after_dropped_call.

End Demo.

(** The page of [Demo.busy_page] after the connection dropped. *)
Definition offline_busy_page : World :=
  mkWorld "no_connection" true true "group_edit" (Some "g1") (Some "g1")
    [Demo.group1] None [Demo.user_says "hello"] Scenario.registry (Some 0) "Alice"
    "" false false false (Some true) false false None 1000 false false false.

(** * Further operations of group-chats.js *)

(** ** Auto-mode scheduler *)

Definition set_signal_aborted (v : bool) (w : World) : World :=
  mkWorld
    (online_status w) (is_group_generating w) (is_send_press w) (menu_type w)
     (selected_group w) (openGroupId w) (groups w) (group_generation_id w)
     (chat w) (characters w) (this_chid w) (name2 w) (send_textarea w)
     (send_textarea_disabled w) (send_buttons_active w)
     (swipe_buttons_shown w) (typing_indicator w) (streaming_enabled w)
     (multigen_enabled w) (streamingProcessor w) (now w) v
     (isGenerationDone w) (isGenerationAborted w).

(** The module variables of the scheduler.  The controller is [None]
    while [groupAutoModeAbortController] is null, and otherwise holds the
    [aborted] flag of its signal. *)
Record AutoMode := mkAutoMode {
  is_group_automode_enabled : bool;
  groupAutoModeAbortController : option bool;
}.

(** The [params] of a scheduled call: [{ signal }]. *)
Definition auto_params : Params := mkParams None true false false.

Section AutoModeWorker.

Variable Generate : string → bool → Params → External.
Variable sendMessageAsUser : string → string → External.
Variable saveChatConditional : External.
Variable sendSystemMessage : string → World → World.
Variable getBiasStrings : string → option string → string.
Variable env : World → World.
Variable rand : nat → Q.
Variable extractAllWords : string → list string.
Variable shuffle : nat → list string → list string * nat.
Variable talkativeness_default : Q.

(** One tick of the 5 s timer.  A tick that passes the guards installs a
    fresh controller, whose signal (not aborted) is the one the call it
    starts is given. *)
Definition groupChatAutoModeWorker (fuel : nat) (a : AutoMode) (w : World)
  : AutoMode * (Outcome unit * World * list Event) :=
  if negb (is_group_automode_enabled a)
     || String.eqb (online_status w) "no_connection" then (a, ret tt w)
  else if negb (truthy (selected_group w)) || is_send_press w
          || is_group_generating w then (a, ret tt w)
  else
    match current_group w with
    | None => (a, ret tt w)
    | Some group =>
        if (length (group_members group) =? 0)%nat then (a, ret tt w)
        else
          (mkAutoMode (is_group_automode_enabled a) (Some false),
           bind
             (generateGroupWrapper Generate sendMessageAsUser saveChatConditional
                sendSystemMessage getBiasStrings env rand extractAllWords shuffle
                talkativeness_default fuel true (Some "auto") auto_params)
             (λ _, ret tt)
             (set_signal_aborted false w))
    end.

End AutoModeWorker.

(** The user types in the send box: auto mode is switched off, the
    controller is left alone. *)
Definition onSendTextareaInput (a : AutoMode) : AutoMode :=
  if is_group_automode_enabled a
  then mkAutoMode false (groupAutoModeAbortController a)
  else a.

(** Generation is stopped: the controller, if any, is aborted and auto
    mode is switched off. *)
Definition stopAutoModeGeneration (a : AutoMode) : AutoMode :=
  mkAutoMode false ((λ _, true) <$> groupAutoModeAbortController a).

(** [messagesBefore] as the [try] block computes it. *)
Definition messagesBefore_of (by_auto_mode : bool) (w : World) : nat :=
  if isUserInput_of by_auto_mode w then S (length (chat w)) else length (chat w).

(** The calls to [Generate] a cycle makes for the ids [ids], in order. *)
Definition generate_calls (type : option string) (by_auto_mode : bool)
    (ids : list Z) : list Event :=
  List.map (λ chId, GenerateCall (generateType_of type) chId by_auto_mode) ids.

(** The enabled members of a group, as the wrapper filters them. *)
Definition enabledMembers_of (group : Group) : list string :=
  List.filter (λ x, negb (includes (group_disabled_members group) x))
    (group_members group).

(** A computation that asks nothing of any collaborator. *)
Definition silent {A} (m : M A) : Prop := ∀ w, (m w).2 = [].

(** The call has returned (and not thrown, nor is it still suspended). *)
Definition returned {A} (o : Outcome A) : Prop :=
  match o with
  | Returned _ => True
  | _ => False
  end.

(** What [m] asks of its collaborators is an initial segment of [events],
    and all of [events] once [m] has returned. *)
Definition emits {A} (events : list Event) (m : M A) : Prop :=
  ∀ w, ∃ n, (m w).2 = take n events ∧ (returned (m w).1.1 → (m w).2 = events).

(** ** Regenerating the last batch *)

(** A chat message together with its [extra?.gen_id]: [None] when the
    message has no [extra] or no id in it.  The id is only tested for
    truthiness and compared for equality. *)
Definition Tagged : Type := Message * option Z.

(** JavaScript truthiness of an optional number. *)
Definition id_truthy (g : option Z) : bool :=
  match g with
  | Some z => negb (z =? 0)
  | None => false
  end.

Definition getLastMessageGenerationId (chat : list Tagged) : option Z :=
  match last chat with
  | Some (lastMes, gen_id) =>
      if negb (msg_is_user lastMes) && negb (msg_is_system lastMes)
      then gen_id else None
  | None => None
  end.

Section Regenerate.

(** [deleteLastMessage] of script.js, as far as the chat is concerned:
    kept abstract. *)
Variable deleteLastMessage : list Tagged → list Tagged.

(** The [while (chat.length > 0)] loop of [regenerateGroup], run for at
    most [fuel] rounds: [None] when the rounds are used up. *)
Fixpoint regenerate_loop (fuel : nat) (generationId : option Z)
    (chat : list Tagged) : option (list Tagged) :=
  match fuel with
  | O => None
  | S fuel' =>
      match last chat with
      | None => Some chat
      | Some (lastMes, this_generationId) =>
          (* for new generations after the update *)
          if id_truthy generationId && id_truthy this_generationId
             && negb (bool_decide (generationId = this_generationId))
          then Some chat
          (* legacy for generations before the update *)
          else if msg_is_user lastMes || msg_is_system lastMes then Some chat
          else regenerate_loop fuel' generationId (deleteLastMessage chat)
      end
  end.

(** The chat [regenerateGroup] leaves behind before it starts the new
    cycle with [generateGroupWrapper()]. *)
Definition regenerateGroup (fuel : nat) (chat : list Tagged) : option (list Tagged) :=
  regenerate_loop fuel (getLastMessageGenerationId chat) chat.

End Regenerate.

(** A message that the loop deletes once it is the last one: written by
    a character and, when both ids are there, of the batch
    [generationId]. *)
Definition of_batch (generationId : option Z) (m : Tagged) : Prop :=
  msg_is_user m.1 = false ∧ msg_is_system m.1 = false ∧
  (id_truthy generationId = true → id_truthy m.2 = true → m.2 = generationId).

(** A chat at whose end the loop stops. *)
Definition batch_boundary (generationId : option Z) (chat : list Tagged) : Prop :=
  match last chat with
  | None => True
  | Some m => ¬ of_batch generationId m
  end.

(** ** Editing the member list *)

(** A JavaScript array of member avatars as [modifyGroupMember] and
    [reorderGroupMember] see it: its elements ([None] is [undefined]) and
    its property "-1", which [reorderGroupMember] can read and write. *)
Record MemberArray := mkMemberArray {
  elements : list (option string);
  minus_one : option string;
}.

(** [memberArray.indexOf(id)]: the property "-1" is no element. *)
Definition array_indexOf (a : MemberArray) (id : string) : Z :=
  findIndex (λ x, bool_decide (x = Some id)) (elements a).

(** [memberArray[i]] for the indices [reorderGroupMember] reads: from -2
    up.  No property below "-1" is ever written. *)
Definition array_get (a : MemberArray) (i : Z) : option string :=
  if i =? -1 then minus_one a
  else if i <? 0 then None
  else mjoin (elements a !! Z.to_nat i).

(** [memberArray[i] = v] for the indices [reorderGroupMember] writes: from
    -1 up (no run writes below).  An index past the end extends the array
    over undefined elements. *)
Definition array_set (a : MemberArray) (i : Z) (v : option string) : MemberArray :=
  if i =? -1 then mkMemberArray (elements a) v
  else if i <? 0 then a
  else if (Z.to_nat i <? length (elements a))%nat
       then mkMemberArray (<[Z.to_nat i := v]> (elements a)) (minus_one a)
       else mkMemberArray
              (elements a ++ replicate (Z.to_nat i - length (elements a)) None ++ [v])
              (minus_one a).

(** What [modifyGroupMember] does to the member array it picked:
    [unshift] of the avatar, or [splice] of its first occurrence. *)
Definition modified_members (a : MemberArray) (id : string) (isDelete : bool)
  : MemberArray :=
  if isDelete then
    let index := findIndex (λ x, bool_decide (x = Some id)) (elements a) in
    if negb (index =? -1)
    then mkMemberArray (delete (Z.to_nat (array_indexOf a id)) (elements a))
           (minus_one a)
    else a
  else mkMemberArray (Some id :: elements a) (minus_one a).

(** What [reorderGroupMember] does to the member array it picked. *)
Definition reordered_members (a : MemberArray) (id : string) (direction : string)
  : MemberArray :=
  let indexOf := array_indexOf a id in
  let a1 :=
    if String.eqb direction "down" then
      let next := array_get a (indexOf + 1) in
      if truthy next
      then array_set (array_set a (indexOf + 1) (array_get a indexOf)) indexOf next
      else a
    else a in
  if String.eqb direction "up" then
    let prev := array_get a1 (indexOf - 1) in
    if truthy prev
    then array_set (array_set a1 (indexOf - 1) (array_get a1 indexOf)) indexOf prev
    else a1
  else a1.

(** The groups as the group editor holds them, the member list of the
    group being created, and the group that is open ([None] is null). *)
Record EditedGroup := mkEditedGroup {
  edited_id : string;
  edited_members : MemberArray;
  edited_disabled_members : list string;
}.

Record GroupEditor := mkGroupEditor {
  editor_groups : list EditedGroup;
  editor_newGroupMembers : MemberArray;
  editor_openGroupId : option string;
}.

(** Apply [f] to the first element satisfying [p], which is the object
    [Array.prototype.find] returns. *)
Fixpoint update_found {A} (p : A → bool) (f : A → A) (l : list A) : list A :=
  match l with
  | [] => []
  | x :: l' => if p x then f x :: l' else x :: update_found p f l'
  end.

Definition has_id (chat_id : option string) (x : EditedGroup) : bool :=
  match chat_id with
  | Some i => String.eqb (edited_id x) i
  | None => false
  end.

(** Update in place the array [thisGroup?.members ?? newGroupMembers],
    where [thisGroup = groups.find((x) => x.id == chat_id)]. *)
Definition on_memberArray (chat_id : option string)
    (f : MemberArray → MemberArray) (ed : GroupEditor) : GroupEditor :=
  match find (has_id chat_id) (editor_groups ed) with
  | Some _ =>
      mkGroupEditor
        (update_found (has_id chat_id)
           (λ g, mkEditedGroup (edited_id g) (f (edited_members g))
                   (edited_disabled_members g))
           (editor_groups ed))
        (editor_newGroupMembers ed) (editor_openGroupId ed)
  | None =>
      mkGroupEditor (editor_groups ed) (f (editor_newGroupMembers ed))
        (editor_openGroupId ed)
  end.

(** The state [modifyGroupMember] and [reorderGroupMember] leave; what
    they save and render is not modelled. *)
Definition modifyGroupMember (chat_id : option string) (id : string)
    (isDelete : bool) (ed : GroupEditor) : GroupEditor :=
  on_memberArray chat_id (λ a, modified_members a id isDelete) ed.

Definition reorderGroupMember (chat_id : option string) (id : string)
    (direction : string) (ed : GroupEditor) : GroupEditor :=
  on_memberArray chat_id (λ a, reordered_members a id direction) ed.

(** The 'enable' and 'disable' actions of [onGroupActionClick] on the
    open group; [None] is the [TypeError] raised when no group has the
    open id. *)
Definition enable_member (id : string) (ed : GroupEditor) : option GroupEditor :=
  match find (has_id (editor_openGroupId ed)) (editor_groups ed) with
  | None => None
  | Some _ =>
      Some (mkGroupEditor
              (update_found (has_id (editor_openGroupId ed))
                 (λ g,
                    let index := indexOf (edited_disabled_members g) id in
                    mkEditedGroup (edited_id g) (edited_members g)
                      (if negb (index =? -1)
                       then delete (Z.to_nat index) (edited_disabled_members g)
                       else edited_disabled_members g))
                 (editor_groups ed))
              (editor_newGroupMembers ed) (editor_openGroupId ed))
  end.

Definition disable_member (id : string) (ed : GroupEditor) : option GroupEditor :=
  match find (has_id (editor_openGroupId ed)) (editor_groups ed) with
  | None => None
  | Some _ =>
      Some (mkGroupEditor
              (update_found (has_id (editor_openGroupId ed))
                 (λ g, mkEditedGroup (edited_id g) (edited_members g)
                         (edited_disabled_members g ++ [id]))
                 (editor_groups ed))
              (editor_newGroupMembers ed) (editor_openGroupId ed))
  end.

(** An array as a stored group has it: no property "-1", every element a
    non-empty avatar. *)
Definition well_formed (a : MemberArray) : Prop :=
  minus_one a = None ∧ ∀ e, e ∈ elements a → truthy e = true.

(** ** The group avatar *)

(** What [getGroupAvatar] builds: a single image, or the collage template
    [collage_n] with its images [img_1] .. [img_n] set. *)
Inductive AvatarView :=
  | Image (src : option string)
  | Collage (n : nat) (imgs : list string).

(** The fields of a group [getGroupAvatar] reads; [members] is an array. *)
Record GroupFace := mkGroupFace {
  face_avatar_url : option string;
  face_members : list string;
}.

Section GroupAvatar.

Variable characters : list Character.

(** [getThumbnailUrl] and [isDataURL] are imported from script.js and
    utils.js; [default_avatar] and [system_avatar] are constants of
    script.js. *)
Variable getThumbnailUrl : string → string → string.
Variable isDataURL : option string → bool.
Variable default_avatar : string.
Variable system_avatar : string.

(** The loop over [group.members], from the array [memberAvatars]
    collected so far. *)
Fixpoint memberAvatars_loop (members : list string) (memberAvatars : list string)
    : list string :=
  match members with
  | [] => memberAvatars
  | member :: rest =>
      let charIndex := findIndex (has_avatar member) characters in
      let memberAvatars :=
        match at_index characters charIndex with
        | Some c =>
            if negb (charIndex =? -1) && negb (String.eqb (char_avatar c) "none")
            then memberAvatars ++ [getThumbnailUrl "avatar" (char_avatar c)]
            else memberAvatars
        | None => memberAvatars
        end in
      if (length memberAvatars =? 4)%nat then memberAvatars
      else memberAvatars_loop rest memberAvatars
  end.

Definition getGroupAvatar (group : option GroupFace) : AvatarView :=
  match group with
  | None => Image (Some default_avatar)
  | Some group =>
      if isDataURL (face_avatar_url group) then Image (face_avatar_url group)
      else
        let memberAvatars :=
          if negb (length (face_members group) =? 0)%nat
          then memberAvatars_loop (face_members group) []
          else [] in
        let avatarCount := length memberAvatars in
        if (1 <=? avatarCount)%nat && (avatarCount <=? 4)%nat
        then Collage avatarCount memberAvatars
        else Collage 1 [if truthy (face_avatar_url group)
                        then default "" (face_avatar_url group)
                        else system_avatar]
  end.

(** A member the collage can show: a known character whose avatar is not
    the placeholder "none". *)
Definition displayable (member : string) : bool :=
  bool_decide (resolvable characters member) && negb (String.eqb member "none").

End GroupAvatar.

(** ** Loading the groups *)

(** A group or chat id as the server stores it: a number in the legacy
    format, a string in the new one. *)
Inductive Id :=
  | Num (n : Z)
  | Str (s : string).

(** A chat's metadata object, by key. *)
Definition Metadata : Type := gmap string string.

(** A group as [/getgroups] returns it.  [None] is a field that is
    [undefined] or [null]; in the legacy format [members] holds character
    names, in the new one avatars. *)
Record StoredGroup := mkStoredGroup {
  stored_id : Id;
  stored_members : list string;
  stored_disabled_members : option (list string);
  stored_chat_id : option Id;
  stored_chats : option (list Id);
  stored_past_metadata : option (gmap string Metadata);
}.

(** [.filter(x => x)] on avatars that may be [undefined]. *)
Definition filter_truthy (l : list (option string)) : list string :=
  omap (λ x, if truthy x then x else None) l.

Definition is_number (x : Id) : bool :=
  match x with Num _ => true | Str _ => false end.

Section GetGroups.

Variable characters : list Character.

(** [String(x)] on a number. *)
Variable String_of_number : Z → string.

Definition String_of (x : Id) : Id :=
  match x with
  | Num n => Str (String_of_number n)
  | Str s => Str s
  end.

(** The body of the loop "Convert groups to new format" of [getGroups],
    one [if] after the other. *)
Definition convert_group (group : StoredGroup) : StoredGroup :=
  let disabled_members :=
    match stored_disabled_members group with
    | None => Some []
    | Some d => Some d
    end in
  let '(chat_id, chats, members) :=
    match stored_chat_id group with
    | None =>
        (Some (stored_id group), Some [stored_id group],
         filter_onlyUnique
           (filter_truthy
              (List.map
                 (λ x, char_avatar <$> find (λ y, String.eqb (char_name y) x) characters)
                 (stored_members group))))
    | Some c => (Some c, stored_chats group, stored_members group)
    end in
  let past_metadata :=
    match stored_past_metadata group with
    | None => Some ∅
    | Some m => Some m
    end in
  let chat_id :=
    match chat_id with
    | Some (Num n) => Some (String_of (Num n))
    | other => other
    end in
  let chats :=
    match chats with
    | Some l => if existsb is_number l then Some (List.map String_of l) else Some l
    | None => None
    end in
  mkStoredGroup (stored_id group) members disabled_members chat_id chats past_metadata.

End GetGroups.

(** The new format: every field present that the conversion fills in, and
    no chat id a number. *)
Definition new_format (group : StoredGroup) : Prop :=
  is_Some (stored_disabled_members group)
  ∧ (∃ s, stored_chat_id group = Some (Str s))
  ∧ is_Some (stored_past_metadata group)
  ∧ ∀ l, stored_chats group = Some l → existsb is_number l = false.

(** ** Renaming a chat of a group *)

(** A group in the new format, with the fields [renameGroupChat] uses. *)
Record ChatGroup := mkChatGroup {
  cg_id : string;
  cg_chat_id : string;
  cg_chats : list string;
  cg_past_metadata : gmap string Metadata;
}.

Definition is_group (groupId : string) (x : ChatGroup) : bool :=
  String.eqb (cg_id x) groupId.

(** [renameGroupChat], up to the request that saves the group. *)
Definition renameGroupChat (groups : list ChatGroup) (groupId oldChatId newChatId : string)
    : list ChatGroup :=
  match find (is_group groupId) groups with
  | None => groups
  | Some group =>
      if negb (includes (cg_chats group) oldChatId) then groups
      else
        update_found (is_group groupId)
          (λ group,
             let chat_id :=
               if String.eqb (cg_chat_id group) oldChatId then newChatId
               else cg_chat_id group in
             let chats :=
               delete (Z.to_nat (indexOf (cg_chats group) oldChatId)) (cg_chats group)
               ++ [newChatId] in
             let past_metadata :=
               delete oldChatId
                 (<[newChatId := default ∅ (cg_past_metadata group !! oldChatId)]>
                    (cg_past_metadata group)) in
             mkChatGroup (cg_id group) chat_id chats past_metadata)
          groups
  end.

(** The chats of a group once [oldChatId] has moved to the end. *)
Definition moved_to_end (chats : list string) (chatId : string) : list string :=
  delete (Z.to_nat (indexOf chats chatId)) chats ++ [chatId].

(** ** Further concrete collaborators and pages *)

Module Cases.

(** A backend during whose request the stop button is pressed. *)
Definition Generate_stopped (generateType : string) (automatic_trigger : bool)
    (params : Params) : External :=
  λ w, (set_isGenerationAborted true w, None).

(** The loop over the members on the example page. *)
Definition members_loop (generate : string → bool → Params → External)
    (fuel : nat) (ids : list Z) : M unit :=
  generate_members generate Demo.env fuel false None Demo.no_params "" "hello" ids 1.

(** Auto mode switched on, no cycle started yet. *)
Definition auto_on : AutoMode := mkAutoMode true None.

Definition tick (fuel : nat) (a : AutoMode) (w : World)
  : AutoMode * (Outcome unit * World * list Event) :=
  groupChatAutoModeWorker Demo.Generate Demo.sendMessageAsUser
    Demo.saveChatConditional Demo.sendSystemMessage Demo.getBiasStrings Demo.env
    quarter_draws one_word shuffle_keep (1 # 2)%Q fuel a w.

(** Deleting the last message drops the last element of the chat. *)
Definition deleteLastMessage : list Tagged → list Tagged := @removelast Tagged.

(** A chat in which two characters answered the user in one batch. *)
Definition batch_chat : list Tagged :=
  [(Demo.user_says "hello", None);
   (mkMessage "Alice" false false "hi" (Some "alice.png"), Some 7);
   (mkMessage "Bob" false false "hey" (Some "bob.png"), Some 7)].

(** The member array of the example group, and an editor holding it. *)
Definition array : MemberArray :=
  mkMemberArray [Some "alice.png"; Some "bob.png"; Some "carol.png"] None.

Definition editor : GroupEditor :=
  mkGroupEditor [mkEditedGroup "g1" array []] (mkMemberArray [] None) (Some "g1").

End Cases.


(** * Properties *)

(** ** Array helpers *)

Lemma findIndex_range {A} (p : A → bool) (l : list A) :
  findIndex p l = -1 ∨ 0 ≤ findIndex p l < Z.of_nat (length l).
Proof.
  induction l as [|x l IH]; simpl; [by left|].
  destruct (p x); [right; lia|].
  destruct (Z.eqb_spec (findIndex p l) (-1)); [by left|].
  right. lia.
Qed.

Lemma findIndex_lookup {A} (p : A → bool) (l : list A) :
  findIndex p l ≠ -1 →
  ∃ x, l !! Z.to_nat (findIndex p l) = Some x ∧ p x = true.
Proof.
  induction l as [|x l IH]; simpl; [done|].
  destruct (p x) eqn:Hp; [by exists x|].
  destruct (Z.eqb_spec (findIndex p l) (-1)) as [|Hne]; [done|].
  intros _. destruct (IH Hne) as (y & Hy & Hpy).
  exists y. split; [|done].
  destruct (findIndex_range p l) as [|[? ?]]; [done|].
  replace (Z.to_nat (findIndex p l + 1)) with (S (Z.to_nat (findIndex p l))) by lia.
  done.
Qed.

Lemma findIndex_find {A} (p : A → bool) (l : list A) :
  findIndex p l ≠ -1 ↔ is_Some (find p l).
Proof.
  induction l as [|x l IH]; simpl.
  - split; [done|]. by intros [? ?].
  - destruct (p x); [split; [by eexists|lia]|].
    destruct (Z.eqb_spec (findIndex p l) (-1)) as [He|Hne].
    + split; [done|]. intros Hs. apply IH in Hs. done.
    + split; [intros _; by apply IH|].
      destruct (findIndex_range p l); lia.
Qed.

Lemma find_Some_holds {A} (p : A → bool) (l : list A) (x : A) :
  find p l = Some x → x ∈ l ∧ p x = true.
Proof.
  induction l as [|y l IH]; simpl; [done|].
  destruct (p y) eqn:Hp.
  - intros [= <-]. split; [left|done].
  - intros H. destruct (IH H). split; [by right|done].
Qed.

Lemma find_None_all {A} (p : A → bool) (l : list A) :
  find p l = None ↔ ∀ x, x ∈ l → p x = false.
Proof.
  induction l as [|y l IH]; simpl.
  - split; [intros _ x Hx; by apply elem_of_nil in Hx|done].
  - destruct (p y) eqn:Hp.
    + split; [done|]. intros H. specialize (H y (list_elem_of_here _ _)). congruence.
    + rewrite IH. split.
      * intros H x [->|Hx]%elem_of_cons; auto.
      * intros H x Hx. apply H. by right.
Qed.

Lemma at_index_in_range {A} (l : list A) (i : Z) :
  0 ≤ i < Z.of_nat (length l) → is_Some (at_index l i).
Proof.
  intros [H0 H1]. unfold at_index.
  destruct (Z.ltb_spec i 0); [lia|].
  apply lookup_lt_is_Some. lia.
Qed.

(** Membership in an index-aware filter. *)
Lemma elem_of_filter_from {A} (p : A → nat → bool) (i : nat) (l : list A) (x : A) :
  x ∈ filter_from p i l ↔ ∃ j, l !! j = Some x ∧ p x (i + j)%nat = true.
Proof.
  revert i. induction l as [|y l IH]; intros i; simpl.
  - split; [by intros ?%elem_of_nil|by intros (j & ? & _)].
  - assert (x ∈ filter_from p (S i) l ↔
            ∃ j, (y :: l) !! S j = Some x ∧ p x (i + S j)%nat = true) as Htl.
    { rewrite IH. by setoid_rewrite Nat.add_succ_r. }
    destruct (p y i) eqn:Hp.
    + rewrite elem_of_cons, Htl. split.
      * intros [->|(j & ? & ?)]; [exists 0%nat|exists (S j)]; [|done].
        by rewrite Nat.add_0_r.
      * intros ([|j] & Hj & Hpj); [left; by injection Hj|right; by exists j].
    + rewrite Htl. split.
      * intros (j & ? & ?). by exists (S j).
      * intros ([|j] & Hj & Hpj); [|by exists j].
        simpl in Hj. injection Hj as ->. rewrite Nat.add_0_r in Hpj. congruence.
Qed.

Lemma NoDup_filter_from {A} (p : A → nat → bool) (i : nat) (l : list A) :
  (∀ j1 j2 x, l !! j1 = Some x → l !! j2 = Some x →
     p x (i + j1)%nat = true → p x (i + j2)%nat = true → j1 = j2) →
  NoDup (filter_from p i l).
Proof.
  revert i. induction l as [|y l IH]; intros i Hinj; simpl; [constructor|].
  assert (NoDup (filter_from p (S i) l)) as Htl.
  { apply IH. intros j1 j2 x H1 H2 Hp1 Hp2.
    assert (S j1 = S j2) as [= ->]; [|done].
    apply (Hinj (S j1) (S j2) x); try done; by rewrite Nat.add_succ_r. }
  destruct (p y i) eqn:Hp; [|done].
  apply NoDup_cons. split; [|done].
  intros (j & Hj & Hpj)%elem_of_filter_from.
  assert (0%nat = S j) as [=].
  apply (Hinj 0%nat (S j) y); try done.
  - by rewrite Nat.add_0_r.
  - by rewrite Nat.add_succ_r.
Qed.

Lemma indexOf_lookup (array : list string) (value : string) (j : nat) :
  array !! j = Some value → indexOf array value ≠ -1.
Proof.
  unfold indexOf. intros Hj. apply findIndex_find.
  destruct (find (String.eqb value) array) eqn:Hf; [by eexists|].
  rewrite find_None_all in Hf.
  specialize (Hf value (list_elem_of_lookup_2 _ _ _ Hj)).
  by rewrite String.eqb_refl in Hf.
Qed.

Lemma NoDup_filter_onlyUnique (array : list string) :
  NoDup (filter_onlyUnique array).
Proof.
  apply NoDup_filter_from. intros j1 j2 x _ _ H1 H2.
  unfold onlyUnique in *. simpl in *. lia.
Qed.

Lemma elem_of_filter_onlyUnique (array : list string) (x : string) :
  x ∈ filter_onlyUnique array ↔ x ∈ array.
Proof.
  unfold filter_onlyUnique. rewrite elem_of_filter_from. split.
  - intros (j & Hj & _). by eapply list_elem_of_lookup_2.
  - intros (j & Hj)%list_elem_of_lookup_1.
    pose proof (indexOf_lookup _ _ _ Hj) as Hne.
    destruct (findIndex_lookup (String.eqb x) array Hne) as (y & Hy & Heq).
    apply String.eqb_eq in Heq as <-.
    exists (Z.to_nat (indexOf array x)). split; [done|].
    unfold onlyUnique. simpl. apply Z.eqb_eq.
    destruct (findIndex_range (String.eqb x) array) as [|[? ?]]; [done|].
    unfold indexOf in *. lia.
Qed.

Lemma filter_onlyUnique_nil_inv (array : list string) :
  filter_onlyUnique array = [] → array = [].
Proof.
  destruct array as [|x l]; [done|]. intros H.
  assert (x ∈ filter_onlyUnique (x :: l)) as Hx.
  { apply elem_of_filter_onlyUnique. left. }
  rewrite H in Hx. by apply elem_of_nil in Hx.
Qed.

Lemma filter_onlyUnique_singleton (x : string) : filter_onlyUnique [x] = [x].
Proof.
  unfold filter_onlyUnique, onlyUnique, indexOf. simpl.
  by rewrite String.eqb_refl.
Qed.

Lemma elem_of_List_filter {A} (f : A → bool) (l : list A) (x : A) :
  x ∈ List.filter f l ↔ x ∈ l ∧ f x = true.
Proof. by rewrite !list_elem_of_In, filter_In. Qed.

Lemma singleton_of_constant (b : string) (l : list string) :
  NoDup l → l ≠ [] → (∀ x, x ∈ l → x = b) → l = [b].
Proof.
  intros Hnd Hne Hall. destruct l as [|x [|y l]]; [done| |].
  - f_equal. apply Hall. left.
  - apply NoDup_cons in Hnd as [Hx _]. exfalso. apply Hx.
    rewrite (Hall x), (Hall y); [left|right; left|left].
Qed.

Lemma filter_all_disabled (members disabled_members : list string) :
  (∀ m, m ∈ members → m ∈ disabled_members) →
  List.filter (λ x, negb (includes disabled_members x)) members = [].
Proof.
  intros Hall. induction members as [|m ms IH]; [done|]. simpl.
  unfold includes at 1. rewrite bool_decide_eq_true_2 by (apply Hall; left).
  simpl. apply IH. intros x Hx. apply Hall. by right.
Qed.

(** ** Mapping avatars to registry indices *)

Section ResolverFacts.

Variable characters : list Character.

Lemma to_memberIds_cons (a : string) (l : list string) :
  to_memberIds characters (a :: l) =
    if findIndex (has_avatar a) characters =? -1
    then to_memberIds characters l
    else findIndex (has_avatar a) characters :: to_memberIds characters l.
Proof.
  unfold to_memberIds. simpl.
  by destruct (findIndex (has_avatar a) characters =? -1).
Qed.

Lemma findIndex_avatar_inj (a b : string) :
  findIndex (has_avatar a) characters ≠ -1 →
  findIndex (has_avatar a) characters = findIndex (has_avatar b) characters →
  a = b.
Proof.
  intros Ha Heq.
  destruct (findIndex_lookup _ _ Ha) as (x & Hx & Hpx).
  assert (findIndex (has_avatar b) characters ≠ -1) as Hb by congruence.
  destruct (findIndex_lookup _ _ Hb) as (y & Hy & Hpy).
  rewrite <- Heq, Hx in Hy. injection Hy as <-.
  unfold has_avatar in *.
  apply String.eqb_eq in Hpx, Hpy. congruence.
Qed.

Lemma elem_of_to_memberIds (i : Z) (l : list string) :
  i ∈ to_memberIds characters l ↔
  ∃ a, a ∈ l ∧ findIndex (has_avatar a) characters = i ∧ i ≠ -1.
Proof.
  induction l as [|a l IH].
  - split; [by intros ?%elem_of_nil|]. by intros (a & ?%elem_of_nil & _).
  - rewrite to_memberIds_cons.
    destruct (Z.eqb_spec (findIndex (has_avatar a) characters) (-1)) as [He|Hne].
    + rewrite IH. split.
      * intros (b & ? & ?). exists b. split; [by right|done].
      * intros (b & [->|?]%elem_of_cons & ? & ?); [congruence|by exists b].
    + rewrite elem_of_cons, IH. split.
      * intros [->|(b & ? & ?)]; [exists a; split; [left|done]|].
        exists b. split; [by right|done].
      * intros (b & [->|?]%elem_of_cons & ? & ?); [by left|right; by exists b].
Qed.

Lemma NoDup_to_memberIds (l : list string) :
  NoDup l → NoDup (to_memberIds characters l).
Proof.
  induction 1 as [|a l Hnotin Hnd IH]; [constructor|].
  rewrite to_memberIds_cons.
  destruct (Z.eqb_spec (findIndex (has_avatar a) characters) (-1)) as [|Hne]; [done|].
  apply NoDup_cons. split; [|done].
  intros (b & Hb & Heq & _)%elem_of_to_memberIds.
  apply Hnotin. by rewrite (findIndex_avatar_inj a b).
Qed.

(** An avatar that resolves is never dropped. *)
Lemma to_memberIds_resolvable (a : string) (l : list string) :
  a ∈ l → resolvable characters a → to_memberIds characters l ≠ [].
Proof.
  intros Ha Hr Hnil.
  assert (findIndex (has_avatar a) characters ∈ to_memberIds characters l) as Hin.
  { apply elem_of_to_memberIds. exists a. split; [done|]. split; [done|].
    by apply findIndex_find. }
  rewrite Hnil in Hin. by apply elem_of_nil in Hin.
Qed.

(** The ids every resolution function returns are pairwise distinct. *)
Lemma NoDup_activateListOrder (members : list string) :
  NoDup (activateListOrder characters members).
Proof. apply NoDup_to_memberIds, NoDup_filter_onlyUnique. Qed.

Lemma NoDup_to_memberIds_short (l : list string) :
  (length l ≤ 1)%nat → NoDup (to_memberIds characters l).
Proof.
  intros Hl. apply NoDup_to_memberIds.
  destruct l as [|a [|b l]]; [constructor|apply NoDup_singleton|simpl in Hl; lia].
Qed.

Lemma NoDup_activateSwipe (chat : list Message) (members : list string) (ids : list Z) :
  activateSwipe characters chat members = Some ids → NoDup ids.
Proof.
  unfold activateSwipe. destruct (last_message chat) as [m|]; [|done].
  intros [= <-]. apply NoDup_to_memberIds_short.
  destruct (negb _).
  - by destruct (find _ _); simpl; lia.
  - by destruct (msg_original_avatar m); simpl; lia.
Qed.

Lemma NoDup_activateImpersonate (rand : nat → Q) (k : nat) (members : list string) :
  NoDup (activateImpersonate characters rand k members).
Proof.
  unfold activateImpersonate. apply NoDup_to_memberIds_short.
  by destruct (at_index _ _); simpl; lia.
Qed.

Lemma NoDup_activateNaturalOrder rand extractAllWords shuffle talkativeness_default
    members input lastMessage allowSelfResponses isUserInput k :
  NoDup (activateNaturalOrder characters rand extractAllWords shuffle
           talkativeness_default members input lastMessage allowSelfResponses
           isUserInput k).
Proof. apply NoDup_to_memberIds, NoDup_filter_onlyUnique. Qed.

End ResolverFacts.

Lemma activateSwipe_no_match characters chat members lastMes :
  last_message chat = Some lastMes →
  truthy (msg_original_avatar lastMes) = false →
  (∀ c, c ∈ characters → char_name c = msg_name lastMes →
        char_avatar c ∉ members) →
  activateSwipe characters chat members = Some [].
Proof.
  intros Hlast Htag Hnone. unfold activateSwipe. rewrite Hlast, Htag. simpl.
  destruct (find _ _) as [m|] eqn:Hfind; [|done].
  apply find_Some_holds in Hfind as [Hin Hinc].
  apply elem_of_List_filter in Hin as [Hin Hname].
  apply String.eqb_eq in Hname.
  unfold includes in Hinc. apply bool_decide_eq_true in Hinc.
  by destruct (Hnone m Hin Hname).
Qed.

(** ** Natural order: what each pass can activate *)

Section NaturalFacts.

Variable characters : list Character.
Variable rand : nat → Q.
Variable extractAllWords : string → list string.
Variable shuffle : nat → list string → list string * nat.
Variable talkativeness_default : Q.

Lemma eligible_resolvable banned member :
  eligible characters banned member → resolvable characters member.
Proof. intros (c & Hc & _). unfold resolvable. by rewrite Hc. Qed.

Lemma random_index_range (k n : nat) :
  unit_draws rand → (0 < n)%nat → 0 ≤ random_index rand k n < Z.of_nat n.
Proof.
  intros Hr Hn. destruct (Hr k) as [H0 H1]. unfold random_index.
  set (q := inject_Z (Z.of_nat n)).
  assert (0 < q)%Q as Hq by (unfold q; rewrite <- (Zlt_Qlt 0); lia).
  split.
  - change 0 with (Qfloor 0). apply Qfloor_resp_le.
    apply Qmult_le_0_compat; [done|by apply Qlt_le_weak].
  - rewrite Zlt_Qlt. eapply Qle_lt_trans; [apply Qfloor_le|].
    fold q. rewrite <- (Qmult_1_l q) at 2.
    by apply Qmult_lt_compat_r.
Qed.

Lemma mention_of_word_eligible banned inputWord members member :
  member ∈ mention_of_word characters extractAllWords banned inputWord members →
  member ∈ members ∧ eligible characters banned member.
Proof.
  induction members as [|m rest IH]; simpl; [by intros ?%elem_of_nil|].
  destruct (find (has_avatar m) characters) as [c|] eqn:Hc.
  - destruct (is_banned banned c) eqn:Hb.
    + intros [??]%IH. split; [by right|done].
    + destruct (includes _ _).
      * intros ->%list_elem_of_singleton. split; [left|by exists c].
      * intros [??]%IH. split; [by right|done].
  - intros [??]%IH. split; [by right|done].
Qed.

Lemma mention_pass_eligible banned input members member :
  member ∈ mention_pass characters extractAllWords banned input members →
  member ∈ members ∧ eligible characters banned member.
Proof.
  unfold mention_pass. destruct (negb _); [|by intros ?%elem_of_nil].
  induction (extractAllWords input) as [|w ws IH]; simpl; [by intros ?%elem_of_nil|].
  intros [?%mention_of_word_eligible|?]%elem_of_app; auto.
Qed.

Lemma chattiness_pass_eligible banned k shuffledMembers member :
  member ∈ (chattiness_pass characters rand talkativeness_default banned k
              shuffledMembers).1 →
  member ∈ shuffledMembers ∧ eligible characters banned member.
Proof.
  revert k. induction shuffledMembers as [|m rest IH]; intros k; simpl;
    [by intros ?%elem_of_nil|].
  destruct (find (has_avatar m) characters) as [c|] eqn:Hc.
  - destruct (is_banned banned c) eqn:Hb.
    + intros [??]%IH. split; [by right|done].
    + specialize (IH (S k)).
      destruct (chattiness_pass _ _ _ _ (S k) rest) as [more k'].
      destruct (Qle_bool _ _); simpl in *.
      * intros [->|Hin]%elem_of_cons; [split; [left|by exists c]|].
        destruct (IH Hin). split; [by right|done].
      * intros Hin. destruct (IH Hin). split; [by right|done].
  - intros [??]%IH. split; [by right|done].
Qed.

Lemma guarantee_pass_resolvable left k members member :
  member ∈ guarantee_pass characters rand left k members →
  member ∈ members ∧ resolvable characters member.
Proof.
  revert k. induction left as [|left IH]; intros k; simpl; [by intros ?%elem_of_nil|].
  destruct (at_index members _) as [m|] eqn:Hm; [|by apply IH].
  destruct (find (has_avatar m) characters) as [c|] eqn:Hc; [|by apply IH].
  intros ->%list_elem_of_singleton. split.
  - unfold at_index in Hm. destruct (_ <? _); [done|].
    by eapply list_elem_of_lookup_2.
  - unfold resolvable. by rewrite Hc.
Qed.

(** With draws in range, the first retry already lands on a member; it is
    kept when that member resolves. *)
Lemma guarantee_pass_picks left k members :
  unit_draws rand → members ≠ [] →
  (∀ m, m ∈ members → resolvable characters m) →
  guarantee_pass characters rand (S left) k members ≠ [].
Proof.
  intros Hr Hne Hall. simpl.
  assert (0 < length members)%nat as Hlen by (destruct members; [done|simpl; lia]).
  destruct (at_index_in_range members _ (random_index_range k _ Hr Hlen)) as [m Hm].
  rewrite Hm.
  assert (m ∈ members) as Hin.
  { unfold at_index in Hm. destruct (_ <? _); [done|].
    by eapply list_elem_of_lookup_2. }
  destruct (Hall m Hin) as [c Hc]. by rewrite Hc.
Qed.

(** Everything natural order activates resolves in the registry. *)
Lemma natural_activated_resolvable members input lastMessage
    allowSelfResponses isUserInput k member :
  member ∈ natural_activated characters rand extractAllWords shuffle
             talkativeness_default members input lastMessage allowSelfResponses
             isUserInput k →
  resolvable characters member.
Proof.
  unfold natural_activated.
  set (banned := bannedUser lastMessage allowSelfResponses isUserInput).
  destruct (shuffle k members) as [shuffled k1].
  pose proof (chattiness_pass_eligible banned k1 shuffled) as Hchat.
  destruct (chattiness_pass _ _ _ banned k1 shuffled) as [chatty k2]. simpl in Hchat.
  pose proof (mention_pass_eligible banned input members) as Hment.
  destruct (mention_pass _ _ banned input members ++ chatty) as [|a l] eqn:Hact.
  - by intros [_ ?]%guarantee_pass_resolvable.
  - rewrite <- Hact. intros [Hin|Hin]%elem_of_app.
    + by apply (eligible_resolvable banned), Hment.
    + by apply (eligible_resolvable banned), Hchat.
Qed.

End NaturalFacts.

Lemma mention_pass_no_members characters extractAllWords banned input :
  mention_pass characters extractAllWords banned input [] = [].
Proof.
  unfold mention_pass. destruct (negb _); [|done].
  by induction (extractAllWords input) as [|x l IH].
Qed.

Lemma activateNaturalOrder_no_members characters rand extractAllWords shuffle
    talkativeness_default input lastMessage allowSelfResponses isUserInput k :
  (∀ k l, (shuffle k l).1 ≡ₚ l) →
  activateNaturalOrder characters rand extractAllWords shuffle talkativeness_default
    [] input lastMessage allowSelfResponses isUserInput k = [].
Proof.
  intros Hperm. unfold activateNaturalOrder, natural_activated.
  rewrite mention_pass_no_members.
  specialize (Hperm k []). destruct (shuffle k []) as [shuffled k1].
  simpl in Hperm. apply Permutation_nil_r in Hperm as ->. reflexivity.
Qed.

Lemma quarter_draws_unit : unit_draws quarter_draws.
Proof. intros k. unfold quarter_draws. split; [by apply Qle_bool_imp_le|reflexivity]. Qed.

Lemma shuffle_keep_permutes (k : nat) (l : list string) : (shuffle_keep k l).1 ≡ₚ l.
Proof. reflexivity. Qed.

(** ** C3: natural order and the guarantee pass *)

(** C3, as stated, fails: the group below has two enabled members, one of
    them ("yuna.png") present in the registry, yet natural order returns
    nobody: the chattiness roll (1/4) exceeds Yuna's talkativeness, and
    both retries of the guarantee pass land on "gone.png", which the
    registry no longer has. *)
Lemma C3_counterexample :
  unit_draws quarter_draws ∧
  resolvable c3_characters "yuna.png" ∧
  activateNaturalOrder c3_characters quarter_draws one_word shuffle_keep (1 # 2)%Q
    ["gone.png"; "yuna.png"] "hi" None false true 0 = [].
Proof.
  split; [apply quarter_draws_unit|]. split; [by eexists|]. reflexivity.
Qed.

(** C3 (amended): for every non-empty list of enabled members that all
    resolve in the character registry, and draws of [Math.random()] in
    [0, 1), natural-order resolution returns a non-empty result. *)
Theorem C3_natural_order_nonempty characters rand extractAllWords shuffle
    talkativeness_default members input lastMessage allowSelfResponses
    isUserInput k :
  unit_draws rand →
  members ≠ [] →
  (∀ m, m ∈ members → resolvable characters m) →
  activateNaturalOrder characters rand extractAllWords shuffle talkativeness_default
    members input lastMessage allowSelfResponses isUserInput k ≠ [].
Proof.
  intros Hr Hne Hall. unfold activateNaturalOrder.
  set (act := natural_activated _ _ _ _ _ _ _ _ _ _ _).
  assert (act ≠ []) as Hact.
  { unfold act, natural_activated.
    destruct (shuffle k members) as [shuffled k1].
    destruct (chattiness_pass _ _ _ _ k1 shuffled) as [chatty k2].
    destruct (mention_pass _ _ _ _ _ ++ chatty) as [|a l]; [|done].
    destruct members as [|m members']; [done|].
    by apply guarantee_pass_picks. }
  destruct act as [|a l] eqn:Heq; [done|].
  apply (to_memberIds_resolvable characters a).
  - apply elem_of_filter_onlyUnique. left.
  - eapply (natural_activated_resolvable characters rand extractAllWords shuffle
              talkativeness_default members input lastMessage allowSelfResponses
              isUserInput k).
    fold act. rewrite Heq. left.
Qed.

Lemma C3_natural_order_nonempty_witness :
  activateNaturalOrder c3_characters quarter_draws one_word shuffle_keep (1 # 2)%Q
    ["yuna.png"] "hi" None false true 0 ≠ [].
Proof.
  apply C3_natural_order_nonempty.
  - apply quarter_draws_unit.
  - done.
  - intros m ->%list_elem_of_singleton. by eexists.
Defined.

(** ** C4: the banned member and the guarantee pass *)

(** C4, as stated, fails: with every draw equal to 1/4, Bob's roll exceeds
    his talkativeness 0, nobody is activated by mention or chattiness, and
    the guarantee pass picks index floor(1/4 * 2) = 0, which is Alice, the
    banned member: the result is [A], not [B]. *)
Lemma C4_counterexample :
  at_index Scenario.registry 0 = Some Scenario.alice ∧
  Scenario.turn quarter_draws one_word shuffle_keep (1 # 2)%Q "hello" = [0].
Proof. split; reflexivity. Qed.

Lemma scenario_eligible (mes member : string) :
  eligible Scenario.registry (Scenario.banned mes) member → member = "bob.png".
Proof.
  intros (c & Hc & Hb).
  change (find (has_avatar member) Scenario.registry) with
    (if String.eqb "alice.png" member then Some Scenario.alice
     else if String.eqb "bob.png" member then Some Scenario.bob else None) in Hc.
  destruct (String.eqb_spec "alice.png" member) as [<-|_].
  { injection Hc as <-. by vm_compute in Hb. }
  by destruct (String.eqb_spec "bob.png" member) as [<-|_].
Qed.

(** C4 (amended): in the scenario, for all draws in [0, 1), the mention
    and chattiness passes never activate the banned member A; the result
    is [B] whenever one of them activated somebody, and otherwise the
    single member the guarantee pass draws, which ignores the ban: [B] or
    [A]. *)
Theorem C4_banned_only_by_guarantee rand extractAllWords shuffle
    talkativeness_default mes :
  unit_draws rand →
  let activated :=
    Scenario.before_guarantee rand extractAllWords shuffle talkativeness_default mes in
  let result :=
    Scenario.turn rand extractAllWords shuffle talkativeness_default mes in
  ("alice.png" ∉ activated) ∧
  (activated ≠ [] → result = [1]) ∧
  (activated = [] → result = [0] ∨ result = [1]).
Proof.
  intros Hr activated result.
  assert (∀ m, m ∈ activated → m = "bob.png") as Hall.
  { intros m [Hm|Hm]%elem_of_app.
    - apply mention_pass_eligible in Hm as [_ Hm]. by eapply scenario_eligible.
    - apply chattiness_pass_eligible in Hm as [_ Hm]. by eapply scenario_eligible. }
  assert (result =
            to_memberIds Scenario.registry
              (filter_onlyUnique
                 (match activated with
                  | [] => guarantee_pass Scenario.registry rand 2
                            (chattiness_pass Scenario.registry rand talkativeness_default
                               (Scenario.banned mes) (shuffle 0%nat Scenario.members).2
                               (shuffle 0%nat Scenario.members).1).2
                            Scenario.members
                  | _ => activated
                  end))) as Hres.
  { unfold result, activated, Scenario.turn, Scenario.before_guarantee,
      activateNaturalOrder, natural_activated.
    fold (Scenario.banned mes).
    destruct (shuffle 0%nat Scenario.members) as [shuffled k1]. simpl.
    by destruct (chattiness_pass _ _ _ _ k1 shuffled) as [chatty k2]. }
  clearbody activated result.
  split; [|split].
  - intros Hin. by specialize (Hall _ Hin).
  - intros Hne. rewrite Hres.
    destruct activated as [|a l]; [by destruct Hne|].
    rewrite (singleton_of_constant "bob.png" (filter_onlyUnique (a :: l))); [reflexivity|..].
    + apply NoDup_filter_onlyUnique.
    + by intros [=]%filter_onlyUnique_nil_inv.
    + intros x Hx. rewrite elem_of_filter_onlyUnique in Hx. by apply Hall.
  - intros Hnil. rewrite Hres, Hnil. simpl.
    set (k2 := (chattiness_pass _ _ _ _ _ _).2).
    destruct (random_index_range rand k2 2 Hr) as [H0 H2]; [lia|].
    assert (random_index rand k2 2 = 0 ∨ random_index rand k2 2 = 1) as [->| ->] by lia.
    + by left.
    + by right.
Qed.

Lemma C4_banned_only_by_guarantee_witness :
  ("alice.png" ∉
     Scenario.before_guarantee quarter_draws one_word shuffle_keep (1 # 2)%Q "hello") ∧
  (Scenario.before_guarantee quarter_draws one_word shuffle_keep (1 # 2)%Q "hello" ≠ [] →
   Scenario.turn quarter_draws one_word shuffle_keep (1 # 2)%Q "hello" = [1]) ∧
  (Scenario.before_guarantee quarter_draws one_word shuffle_keep (1 # 2)%Q "hello" = [] →
   Scenario.turn quarter_draws one_word shuffle_keep (1 # 2)%Q "hello" = [0] ∨
   Scenario.turn quarter_draws one_word shuffle_keep (1 # 2)%Q "hello" = [1]).
Proof.
  apply (C4_banned_only_by_guarantee quarter_draws one_word shuffle_keep (1 # 2)%Q "hello").
  apply quarter_draws_unit.
Defined.

(** ** C6: swipe on a tagged message *)

(** C6, as stated, fails: the last message is tagged with "gone.png", an
    enabled member of the group, but the registry no longer has that
    character, so the mapping to registry indices drops it and the result
    is empty rather than that single author. *)
Lemma C6_counterexample :
  "gone.png" ∈ List.filter (λ x, negb (includes [] x)) ["gone.png"; "bob.png"] ∧
  activateSwipe Scenario.registry
    [mkMessage "Gone" false false "hi" (Some "gone.png")] ["gone.png"; "bob.png"]
  = Some [].
Proof. split; [vm_compute; left|reflexivity]. Qed.

(** C6 (amended): when the last message carries a non-empty
    original-author tag and that author resolves in the character
    registry, swipe resolution returns exactly that author's registry
    index, whatever the member list, the disabled members and the display
    name of the message are: name matching is not consulted. *)
Theorem C6_swipe_tagged characters chat members lastMes tag :
  last_message chat = Some lastMes →
  msg_original_avatar lastMes = Some tag →
  tag ≠ "" →
  resolvable characters tag →
  let id := findIndex (has_avatar tag) characters in
  (∃ c, at_index characters id = Some c ∧ char_avatar c = tag) ∧
  activateSwipe characters chat members = Some [id] ∧
  ∀ chat' members' lastMes',
    last_message chat' = Some lastMes' →
    msg_original_avatar lastMes' = Some tag →
    activateSwipe characters chat' members' = activateSwipe characters chat members.
Proof.
  intros Hlast Htag Hne Hres id.
  assert (id ≠ -1) as Hid by by apply findIndex_find.
  assert (∀ chat' members' lastMes',
            last_message chat' = Some lastMes' →
            msg_original_avatar lastMes' = Some tag →
            activateSwipe characters chat' members' = Some [id]) as Hswipe.
  { intros chat' members' lastMes' Hl Ht. unfold activateSwipe.
    rewrite Hl, Ht. simpl.
    destruct (String.eqb_spec tag "") as [|_]; [done|]. simpl.
    rewrite to_memberIds_cons. fold id.
    by destruct (Z.eqb_spec id (-1)). }
  split; [|split].
  - destruct (findIndex_lookup _ _ Hid) as (c & Hc & Hp). exists c. split.
    + unfold at_index. fold id in Hc.
      destruct (findIndex_range (has_avatar tag) characters) as [|[? _]]; [done|].
      fold id in H. by destruct (Z.ltb_spec id 0); [lia|].
    + by apply String.eqb_eq in Hp.
  - by eapply Hswipe.
  - intros chat' members' lastMes' Hl Ht.
    rewrite (Hswipe _ members' _ Hl Ht). symmetry. by eapply Hswipe.
Qed.

Lemma C6_swipe_tagged_witness :
  activateSwipe Scenario.registry [Scenario.from_alice "hi"] ["bob.png"] = Some [0].
Proof.
  by apply (C6_swipe_tagged Scenario.registry [Scenario.from_alice "hi"] ["bob.png"]
              (Scenario.from_alice "hi") "alice.png" eq_refl eq_refl);
    [|eexists].
Defined.

(** ** Running the monad in proofs *)

Ltac run_monad :=
  cbv beta iota zeta delta
    [mbind M_bind bind mret M_ret ret get modify emit throw pending call
     toastr_warning setSendButtonState setCharacterId setCharacterName
     setMenuType activateSendButtons deactivateSendButtons showSwipeButtons
     hideSwipeButtons delay].

(** ** C7: no identifier appears twice *)

(** C7: whatever path member resolution takes (forced member, quiet,
    swipe or continue, impersonate, natural order, list order), the ids it
    returns are pairwise distinct. *)
Theorem C7_no_duplicate_ids rand extractAllWords shuffle talkativeness_default
    type params group activationText lastMessage isUserInput w ids w' t :
  resolve_members rand extractAllWords shuffle talkativeness_default type params
    group activationText lastMessage isUserInput w = (Returned ids, w', t) →
  NoDup ids.
Proof.
  unfold resolve_members. run_monad.
  destruct (force_chid params) as [chid|].
  { intros [= <- _ _]. apply NoDup_singleton. }
  destruct (type_is type "quiet").
  { destruct (activateSwipe _ _ _) as [[|i l]|] eqn:Hs; intros [= <- _ _].
    - apply NoDup_activateListOrder.
    - by eapply NoDup_activateSwipe. }
  destruct (type_is type "swipe" || type_is type "continue").
  { destruct (activateSwipe _ _ _) as [[|i l]|] eqn:Hs; intros [= <- _ _].
    by eapply NoDup_activateSwipe. }
  destruct (type_is type "impersonate").
  { intros [= <- _ _]. apply NoDup_activateImpersonate. }
  destruct (_ =? group_activation_strategy.NATURAL).
  { intros [= <- _ _]. apply NoDup_activateNaturalOrder. }
  destruct (_ =? group_activation_strategy.LIST); intros [= <- _ _].
  - apply NoDup_activateListOrder.
  - constructor.
Qed.

(** List order on the example group: both members, in stored order. *)
Example resolve_list_order :
  Demo.resolve None Demo.no_params Demo.group1 (Demo.page [Demo.group1] "")
  = (Returned [0; 1], Demo.page [Demo.group1] "", []).
Proof. reflexivity. Qed.

Lemma C7_no_duplicate_ids_witness : NoDup [0; 1].
Proof.
  apply (C7_no_duplicate_ids quarter_draws one_word shuffle_keep (1 # 2)%Q None
           Demo.no_params Demo.group1 "hello"
           (last_message (chat (Demo.page [Demo.group1] ""))) false
           (Demo.page [Demo.group1] "") [0; 1]
           (Demo.page [Demo.group1] "") []).
  reflexivity.
Defined.

(** In the wrapper, a swipe or continue request on such a message
    resolves to that author without a warning. *)
Lemma swipe_tagged_resolution rand extractAllWords shuffle talkativeness_default
    type params group activationText lastMessage isUserInput w lastMes tag :
  type = Some "swipe" ∨ type = Some "continue" →
  force_chid params = None →
  last_message (chat w) = Some lastMes →
  msg_original_avatar lastMes = Some tag →
  tag ≠ "" →
  resolvable (characters w) tag →
  resolve_members rand extractAllWords shuffle talkativeness_default type params
    group activationText lastMessage isUserInput w
  = (Returned [findIndex (has_avatar tag) (characters w)], w, []).
Proof.
  intros Htype Hforce Hlast Htag Hne Hres.
  assert (activateSwipe (characters w) (chat w) (group_members group)
          = Some [findIndex (has_avatar tag) (characters w)]) as Hswipe.
  { unfold activateSwipe. rewrite Hlast, Htag. simpl.
    destruct (String.eqb_spec tag "") as [|_]; [done|]. simpl.
    rewrite to_memberIds_cons.
    destruct (Z.eqb_spec (findIndex (has_avatar tag) (characters w)) (-1)) as [He|];
      [|done].
    by apply findIndex_find in Hres. }
  unfold resolve_members. run_monad. rewrite Hforce, Hswipe.
  by destruct Htype as [-> | ->].
Qed.

(** ** C8: the fallback of a quiet request *)

(** C8, as stated, fails: Alice is disabled in the group, the last message
    is the user's (no tag, no member of that name), so swipe-style
    resolution is empty; the fallback then returns Alice, the first stored
    member, although the first enabled member is Bob. *)
Lemma C8_counterexample :
  List.filter (λ x, negb (includes (group_disabled_members Demo.group2) x))
    (group_members Demo.group2) = ["bob.png"] ∧
  activateSwipe Scenario.registry [Demo.user_says "hello"] (group_members Demo.group2)
    = Some [] ∧
  Demo.resolve (Some "quiet") Demo.no_params Demo.group2 (Demo.page [Demo.group2] "")
    = (Returned [0], Demo.page [Demo.group2] "", []) ∧
  at_index Scenario.registry 0 = Some Scenario.alice.
Proof. repeat split; reflexivity. Qed.

(** C8 (amended): for every quiet request without a forced member,
    resolution first attempts swipe-style resolution over the group's
    stored member list; a non-empty outcome is the result, and an empty
    one falls back to the first stored member of the group, enabled or
    not, which is returned alone when it resolves in the registry and
    dropped otherwise. *)
Theorem C8_quiet_fallback rand extractAllWords shuffle talkativeness_default
    params group activationText lastMessage isUserInput w swiped :
  force_chid params = None →
  activateSwipe (characters w) (chat w) (group_members group) = Some swiped →
  resolve_members rand extractAllWords shuffle talkativeness_default (Some "quiet")
    params group activationText lastMessage isUserInput w =
  (Returned
     (match swiped, group_members group with
      | _ :: _, _ => swiped
      | [], first :: _ =>
          let id := findIndex (has_avatar first) (characters w) in
          if id =? -1 then [] else [id]
      | [], [] => []
      end), w, []).
Proof.
  intros Hforce Hswipe. unfold resolve_members. run_monad.
  rewrite Hforce. simpl. rewrite Hswipe.
  destruct swiped as [|i l]; [|done].
  destruct (group_members group) as [|first rest]; [done|].
  unfold activateListOrder. simpl take. rewrite filter_onlyUnique_singleton.
  rewrite to_memberIds_cons. by destruct (_ =? _).
Qed.

Lemma C8_quiet_fallback_witness :
  Demo.resolve (Some "quiet") Demo.no_params Demo.group2
    (Demo.page [Demo.group2] "")
  = (Returned [0], Demo.page [Demo.group2] "", []).
Proof.
  exact (C8_quiet_fallback quarter_draws one_word shuffle_keep (1 # 2)%Q
           Demo.no_params Demo.group2 "hello" _ false
           (Demo.page [Demo.group2] "") [] eq_refl eq_refl).
Defined.

(** ** Fuel only bounds the observation

    A call that has settled within [fuel] rounds of polling settles in the
    same way, in the same state and with the same trace, under every
    larger bound. *)

Lemma refines_refl {A} (m : M A) : refines m m.
Proof. by intros w _. Qed.

Lemma refines_trans {A} (m1 m2 m3 : M A) :
  refines m1 m2 → refines m2 m3 → refines m1 m3.
Proof.
  intros H12 H23 w Hw. rewrite H23; [by apply H12|]. by rewrite H12.
Qed.

Lemma refines_pending {A} (m : M A) : refines pending m.
Proof. by intros w Hw. Qed.

Lemma refines_bind {A B} (m1 m2 : M A) (f1 f2 : A → M B) :
  refines m1 m2 → (∀ a, refines (f1 a) (f2 a)) →
  refines (bind m1 f1) (bind m2 f2).
Proof.
  intros Hm Hf w. unfold bind.
  destruct (m1 w) as [[[a|e|] w1] t1] eqn:H1; intros Hw.
  - rewrite Hm, H1 by by rewrite H1. specialize (Hf a w1).
    destruct (f1 a w1) as [[o2 w2] t2]. rewrite Hf; [done|].
    simpl in *. by destruct o2.
  - by rewrite Hm, H1 by by rewrite H1.
  - done.
Qed.

Lemma refines_try_finally {A} (m1 m2 : M A) (fin : M unit) :
  refines m1 m2 → refines (try_finally m1 fin) (try_finally m2 fin).
Proof.
  intros Hm w. unfold try_finally.
  destruct (m1 w) as [[[a|e|] w1] t1] eqn:H1; intros Hw;
    [by rewrite Hm, H1 by by rewrite H1..|done].
Qed.

Ltac refines_step :=
  lazymatch goal with
  | |- refines ?m ?m => apply refines_refl
  | |- refines pending _ => apply refines_pending
  | |- refines (bind _ _) (bind _ _) => apply refines_bind; [|intros ?]
  | |- refines (try_finally _ _) (try_finally _ _) => apply refines_try_finally
  | |- refines (if ?b then _ else _) (if ?b then _ else _) => destruct b
  | |- refines (match ?x with _ => _ end) (match ?x with _ => _ end) => destruct x
  end.

(** ** The sequencer *)

Section SequencerFacts.

Variable Generate : string → bool → Params → External.
Variable sendMessageAsUser : string → string → External.
Variable saveChatConditional : External.
Variable sendSystemMessage : string → World → World.
Variable getBiasStrings : string → option string → string.
Variable env : World → World.
Variable rand : nat → Q.
Variable extractAllWords : string → list string.
Variable shuffle : nat → list string → list string * nat.
Variable talkativeness_default : Q.

Local Abbreviation phase :=
  (generation_phase Generate sendMessageAsUser saveChatConditional
     getBiasStrings env rand extractAllWords shuffle talkativeness_default).
Local Abbreviation resolution :=
  (resolve_members rand extractAllWords shuffle talkativeness_default).

(** *** Guards, navigation and cleanup *)

Lemma navigate_returns (w : World) :
  navigate env w = (Returned tt, after_navigate env w, []).
Proof.
  unfold after_navigate, navigate, select_group_chats. run_monad.
  by destruct (negb _).
Qed.


Lemma cleanup_returns (w : World) :
  ∃ w', cleanup w = (Returned tt, w', []) ∧ idle w' ∧
        chat w' = chat w ∧ characters w' = characters w.
Proof. eexists. split; [reflexivity|]. by repeat split. Qed.

Lemma try_finally_cleanup {A} (body : M A) (w w' : World) (o : Outcome A)
    (t : list Event) :
  try_finally body cleanup w = (o, w', t) →
  o ≠ Pending →
  idle w' ∧ ∃ w1, body w = (o, w1, t) ∧ chat w' = chat w1.
Proof.
  unfold try_finally. destruct (body w) as [[o1 w1] t1].
  destruct (cleanup_returns w1) as (w2 & -> & Hidle & Hchat & _).
  destruct o1; intros [= <- <- <-]; intros Hp; try done;
    (split; [done|]); exists w1; by rewrite app_nil_r.
Qed.

Lemma wrapper_enters fuel by_auto_mode type params w group :
  enters env w group →
  generateGroupWrapper Generate sendMessageAsUser saveChatConditional
       sendSystemMessage getBiasStrings env rand extractAllWords shuffle
       talkativeness_default fuel by_auto_mode type params w =
    match try_finally (phase fuel by_auto_mode type params group) cleanup
            (after_navigate env w) with
    | (Returned _, w', t) => (Returned RetUndefined, w', t)
    | (Thrown e, w', t) => (Thrown e, w', t)
    | (Pending, w', t) => (Pending, w', t)
    end.
Proof.
  intros (Honline & Hidle & Hgroup & Hmembers).
  unfold generateGroupWrapper. run_monad.
  destruct (String.eqb_spec (online_status w) "no_connection") as [|_]; [done|].
  rewrite Hidle, navigate_returns, Hgroup.
  destruct (group_members group) as [|m ms]; [done|]. simpl.
  destruct (try_finally _ _ _) as [[[r|e|] w'] t]; [|done..].
  by rewrite app_nil_r.
Qed.

(** *** The generation phase up to member resolution *)

Lemma prepare_preserves (w : World) :
  chat (prepare w) = chat w ∧ characters (prepare w) = characters w ∧
  send_textarea (prepare w) = send_textarea w ∧
  signal_aborted (prepare w) = signal_aborted w.
Proof. unfold prepare. by destruct (_ && _). Qed.

(** An error of member resolution is the error of the phase. *)
Lemma phase_resolution_throws fuel by_auto_mode type params group w e w' t :
  signal params && signal_aborted w = false →
  resolution type params group (activationText_of by_auto_mode w)
    (last_message (chat w)) (isUserInput_of by_auto_mode w) (prepare w)
    = (Thrown e, w', t) →
  phase fuel by_auto_mode type params group w = (Thrown e, w', t).
Proof.
  intros Hsig Hres. unfold generation_phase. run_monad. simpl.
  unfold prepare, activationText_of, isUserInput_of in Hres.
  destruct (bool_decide _ && negb _); simpl; rewrite Hsig; simpl;
    by rewrite Hres.
Qed.

(** When resolution returns nobody, the warning is raised, the typed text
    goes down the single-user-message path, and no member is generated. *)
Lemma phase_resolution_empty fuel by_auto_mode type params group w w' t :
  signal params && signal_aborted w = false →
  resolution type params group (activationText_of by_auto_mode w)
    (last_message (chat w)) (isUserInput_of by_auto_mode w) (prepare w)
    = (Returned [], w', t) →
  let userInput := send_textarea w in
  let messageBias := getBiasStrings userInput type in
  let warned :=
    t ++ [Toast "All group members are disabled. Enable at least one to get a reply.";
          SendMessageAsUser userInput messageBias] in
  phase fuel by_auto_mode type params group w =
    match sendMessageAsUser userInput messageBias w' with
    | (w1, Some e) => (Thrown e, w1, warned)
    | (w1, None) =>
        match saveChatConditional w1 with
        | (w2, Some e) => (Thrown e, w2, warned ++ [SaveChat])
        | (w2, None) => (Returned tt, set_send_textarea "" w2, warned ++ [SaveChat])
        end
    end.
Proof.
  intros Hsig Hres. unfold generation_phase. run_monad. simpl.
  unfold prepare, activationText_of, isUserInput_of in Hres.
  destruct (bool_decide _ && negb _); simpl; rewrite Hsig; simpl;
    rewrite Hres; simpl;
    (destruct (sendMessageAsUser _ _ w') as [w1 [e|]]; simpl; [done|]);
    (destruct (saveChatConditional w1) as [w2 [e|]]; simpl;
       by rewrite <- ?app_assoc).
Qed.

(** *** C1, C2, C10: mutual exclusion and the failure-safety contract *)

(** C1: a call that enters its generation phase and has settled, by
    returning or by throwing whatever the error, leaves the generating
    flag reset, the send box, send button and send affordances enabled,
    and the active character context cleared. *)
Theorem C1_cleanup_on_every_exit fuel by_auto_mode type params w group o w' t :
  enters env w group →
  generateGroupWrapper Generate sendMessageAsUser saveChatConditional
       sendSystemMessage getBiasStrings env rand extractAllWords shuffle
       talkativeness_default fuel by_auto_mode type params w = (o, w', t) →
  o ≠ Pending →
  idle w'.
Proof.
  intros Henters Hrun Hsettled.
  rewrite wrapper_enters with (group := group) in Hrun by done.
  destruct (try_finally _ _ _) as [[o1 w1] t1] eqn:Htry.
  assert (o1 ≠ Pending ∧ w1 = w') as [Ho1 <-].
  { destruct o1; injection Hrun as <- <- <-; by split. }
  by destruct (try_finally_cleanup _ _ _ _ _ Htry Ho1).
Qed.

(** C2, as stated, fails: a call made while a cycle is generating is not
    always without effect, and overlapping calls can both run a cycle.
    The first call is suspended in its polling loop with the flag set;
    the connection drops and a second call, made in that state, returns
    at once but clears the flag; once the connection is back a third call
    finds the flag clear and generates for both members while the first
    cycle is still in flight. *)
Lemma C2_counterexample :
  (Demo.run Demo.Generate_silent Demo.env 3 false None Demo.no_params
     (Demo.page [Demo.group1] "")).1.1 = Pending ∧
  is_group_generating Demo.dropped = true ∧
  Demo.run Demo.Generate Demo.env 3 false None Demo.no_params Demo.dropped
    = (Returned RetUndefined, Demo.after_dropped_call, []) ∧
  Demo.after_dropped_call ≠ Demo.dropped ∧
  (Demo.run Demo.Generate Demo.env 3 false None Demo.no_params Demo.restored).2
    = [GenerateCall "group_chat" 0 false; GenerateCall "group_chat" 1 false].
Proof.
  split; [reflexivity|]. split; [reflexivity|]. split; [reflexivity|].
  split; [|reflexivity].
  intros Heq. apply (f_equal is_group_generating) in Heq. discriminate Heq.
Qed.

(** C2 (amended): a call made while a cycle is generating returns at
    once; it asks nothing of any collaborator (no generation, no message,
    no warning) and leaves the chat, the registry and the groups as they
    were.  When the backend is connected it returns [false] and changes
    nothing at all, the generating flag included. *)
Theorem C2_busy_call_is_noop fuel by_auto_mode type params w :
  is_group_generating w = true →
  ∃ r w',
    generateGroupWrapper Generate sendMessageAsUser saveChatConditional
       sendSystemMessage getBiasStrings env rand extractAllWords shuffle
       talkativeness_default fuel by_auto_mode type params w = (Returned r, w', []) ∧
    chat w' = chat w ∧ characters w' = characters w ∧ groups w' = groups w ∧
    (online_status w ≠ "no_connection" → r = RetFalse ∧ w' = w).
Proof.
  intros Hbusy. unfold generateGroupWrapper. run_monad.
  destruct (String.eqb_spec (online_status w) "no_connection") as [Hoff|Hon].
  - eexists _, _. split; [reflexivity|]. by repeat split.
  - rewrite Hbusy. eexists _, _. split; [reflexivity|]. by repeat split.
Qed.

(** C10: a call made while the backend status is "no_connection" returns
    before the mutual-exclusion check, with the generating flag and the
    send-button state both reset; made while another cycle is in flight,
    it therefore changes the state by clearing that cycle's flag. *)
Theorem C10_no_connection_resets_flag fuel by_auto_mode type params w :
  online_status w = "no_connection" →
  let w' := set_is_send_press false (set_is_group_generating false w) in
  generateGroupWrapper Generate sendMessageAsUser saveChatConditional
       sendSystemMessage getBiasStrings env rand extractAllWords shuffle
       talkativeness_default fuel by_auto_mode type params w = (Returned RetUndefined, w', []) ∧
  is_group_generating w' = false ∧
  is_send_press w' = false ∧
  (is_group_generating w = true → w' ≠ w).
Proof.
  intros Hoff w'. split; [|split; [done|split; [done|]]].
  - unfold generateGroupWrapper. run_monad. by rewrite Hoff.
  - intros Hbusy Heq. apply (f_equal is_group_generating) in Heq.
    simpl in Heq. congruence.
Qed.

(** *** C5: swipe of a message whose author is gone *)

(** C5: a swipe or continue request (no forced member, abort signal not
    already fired) whose last message has no original-author tag and whose
    display name is that of no character among the group's members ends
    with the error "Deleted group member swiped": the warning is the only
    thing asked of a collaborator, so no member is generated, and the page
    is left idle. *)
Theorem C5_swipe_no_member_found fuel by_auto_mode type params w group lastMes :
  enters env w group →
  type = Some "swipe" ∨ type = Some "continue" →
  force_chid params = None →
  signal params && signal_aborted (after_navigate env w) = false →
  last_message (chat (after_navigate env w)) = Some lastMes →
  truthy (msg_original_avatar lastMes) = false →
  (∀ c, c ∈ characters (after_navigate env w) →
        char_name c = msg_name lastMes → char_avatar c ∉ group_members group) →
  ∃ w',
    generateGroupWrapper Generate sendMessageAsUser saveChatConditional
       sendSystemMessage getBiasStrings env rand extractAllWords shuffle
       talkativeness_default fuel by_auto_mode type params w =
      (Thrown (Error "Deleted group member swiped"), w',
       [Toast "Deleted group member swiped. To get a reply, add them back to the group."]) ∧
    idle w' ∧ chat w' = chat (after_navigate env w).
Proof.
  intros Henters Htype Hforce Hsig Hlast Htag Hnone.
  rewrite wrapper_enters with (group := group) by done.
  set (w1 := after_navigate env w) in *.
  destruct (prepare_preserves w1) as (Hchat & Hchars & _ & _).
  assert (activateSwipe (characters (prepare w1)) (chat (prepare w1))
            (group_members group) = Some []) as Hswipe.
  { rewrite Hchat, Hchars. by eapply activateSwipe_no_match. }
  assert (type_is type "quiet" = false ∧
          type_is type "swipe" || type_is type "continue" = true) as [Hq Hs].
  { by destruct Htype as [-> | ->]. }
  unfold try_finally.
  erewrite phase_resolution_throws; [| done |].
  2:{ unfold resolve_members. run_monad. rewrite Hforce, Hq, Hs, Hswipe. reflexivity. }
  destruct (cleanup_returns (prepare w1)) as (w' & -> & Hidle & Hchat' & _).
  exists w'. split; [done|]. split; [done|]. congruence.
Qed.

(** *** C9: every member disabled *)

Lemma by_policy_type type params s :
  by_policy type params →
  s ∈ ["quiet"; "swipe"; "continue"; "impersonate"] →
  type_is type s = false.
Proof.
  intros [_ Hkind] Hs. destruct type as [t|]; [|done]. simpl.
  destruct (String.eqb_spec t s) as [->|]; [|done]. by destruct (Hkind s Hs).
Qed.

(** [shuffle] returns a rearrangement of its argument. *)
Hypothesis shuffle_permutes : ∀ k l, (shuffle k l).1 ≡ₚ l.

Lemma resolution_all_disabled type params group activationText lastMessage
    isUserInput w :
  by_policy type params →
  (∀ m, m ∈ group_members group → m ∈ group_disabled_members group) →
  resolve_members rand extractAllWords shuffle talkativeness_default type params
    group activationText lastMessage isUserInput w = (Returned [], w, []).
Proof.
  intros Hpol Hall. unfold resolve_members. run_monad.
  rewrite (proj1 Hpol).
  rewrite !(by_policy_type type params) by (done || (repeat constructor)).
  simpl. rewrite (filter_all_disabled _ _ Hall).
  rewrite activateNaturalOrder_no_members by done.
  by repeat destruct (_ =? _).
Qed.

(** C9: when every member of the group is disabled and the request is
    resolved by the group's policy, the warning is raised, the text typed
    in the send box goes down the single-user-message path, and the cycle
    stops without generating for any member, leaving the page idle. *)
Theorem C9_all_members_disabled fuel by_auto_mode type params w group :
  enters env w group →
  by_policy type params →
  signal params && signal_aborted (after_navigate env w) = false →
  (∀ m, m ∈ group_members group → m ∈ group_disabled_members group) →
  let userInput := send_textarea (after_navigate env w) in
  let messageBias := getBiasStrings userInput type in
  ∃ o w' rest,
    generateGroupWrapper Generate sendMessageAsUser saveChatConditional
       sendSystemMessage getBiasStrings env rand extractAllWords shuffle
       talkativeness_default fuel by_auto_mode type params w =
      (o, w',
       Toast "All group members are disabled. Enable at least one to get a reply."
       :: SendMessageAsUser userInput messageBias :: rest) ∧
    (rest = [] ∨ rest = [SaveChat]) ∧
    o ≠ Pending ∧
    idle w' ∧
    ((∀ v, (sendMessageAsUser userInput messageBias v).2 = None) →
     (∀ v, (saveChatConditional v).2 = None) →
     o = Returned RetUndefined ∧ rest = [SaveChat]).
Proof.
  intros Henters Hpol Hsig Hall userInput messageBias.
  rewrite wrapper_enters with (group := group) by done.
  set (w1 := after_navigate env w) in *.
  unfold try_finally.
  erewrite phase_resolution_empty; [| done | by apply resolution_all_disabled].
  fold userInput messageBias.
  destruct (sendMessageAsUser userInput messageBias (prepare w1)) as [w2 [e|]] eqn:Hsend.
  - destruct (cleanup_returns w2) as (w' & -> & Hidle & _).
    exists (Thrown e), w', [].
    split; [done|]. split; [by left|]. split; [done|]. split; [done|].
    intros Hs _. specialize (Hs (prepare w1)). by rewrite Hsend in Hs.
  - destruct (saveChatConditional w2) as [w3 [e|]] eqn:Hsave.
    + destruct (cleanup_returns w3) as (w' & -> & Hidle & _).
      exists (Thrown e), w', [SaveChat].
      split; [done|]. split; [by right|]. split; [done|]. split; [done|].
      intros _ Hs. specialize (Hs w2). by rewrite Hsave in Hs.
    + destruct (cleanup_returns (set_send_textarea "" w3)) as (w' & -> & Hidle & _).
      exists (Returned RetUndefined), w', [SaveChat].
      split; [done|]. split; [by right|]. split; [done|]. split; [done|]. done.
Qed.

(** *** Settled outcomes do not depend on the bound *)

Lemma poll_refines fuel type generateType userInput lastMessageText messagesBefore :
  refines (poll env fuel type generateType userInput lastMessageText messagesBefore)
    (poll env (S fuel) type generateType userInput lastMessageText messagesBefore).
Proof.
  induction fuel as [|fuel IH]; [apply refines_pending|].
  remember (S fuel) as n eqn:Hn.
  cbn [poll]. rewrite Hn at 1. cbn [poll]. subst n.
  unfold mbind, M_bind.
  repeat first [apply IH | refines_step].
Qed.

Lemma generate_members_refines fuel by_auto_mode type params userInput
    lastMessageText activatedMembers messagesBefore :
  refines
    (generate_members Generate env fuel by_auto_mode type params userInput
       lastMessageText activatedMembers messagesBefore)
    (generate_members Generate env (S fuel) by_auto_mode type params userInput
       lastMessageText activatedMembers messagesBefore).
Proof.
  revert messagesBefore.
  induction activatedMembers as [|chId rest IH]; intros messagesBefore;
    [apply refines_refl|].
  cbn [generate_members]. unfold mbind, M_bind.
  repeat first [apply IH | apply poll_refines | refines_step].
Qed.

Lemma wrapper_refines fuel by_auto_mode type params :
  refines
    (generateGroupWrapper Generate sendMessageAsUser saveChatConditional
       sendSystemMessage getBiasStrings env rand extractAllWords shuffle
       talkativeness_default fuel by_auto_mode type params)
    (generateGroupWrapper Generate sendMessageAsUser saveChatConditional
       sendSystemMessage getBiasStrings env rand extractAllWords shuffle
       talkativeness_default (S fuel) by_auto_mode type params).
Proof.
  unfold generateGroupWrapper, generation_phase, mbind, M_bind.
  repeat first [apply generate_members_refines | refines_step].
Qed.

(** Once settled, the outcome of a call does not depend on the bound. *)
Lemma settled_outcome_stable fuel fuel' by_auto_mode type params w :
  (fuel ≤ fuel')%nat →
  let run n :=
    generateGroupWrapper Generate sendMessageAsUser saveChatConditional
      sendSystemMessage getBiasStrings env rand extractAllWords shuffle
      talkativeness_default n by_auto_mode type params w in
  (run fuel).1.1 ≠ Pending → run fuel' = run fuel.
Proof.
  intros Hle run. unfold run. clear run.
  induction Hle as [|fuel' Hle IH]; [done|].
  intros Hs. rewrite wrapper_refines; [by apply IH|]. by rewrite IH.
Qed.

End SequencerFacts.

(** ** Closed instances of the sequencer properties *)

(** The example group answers and the call returns with the page idle. *)
Example run_completes :
  Demo.run Demo.Generate Demo.env 1 false None Demo.no_params
    (Demo.page [Demo.group1] "hello")
  = (Returned RetUndefined,
     set_chat [Demo.user_says "hello"; Demo.user_says "hello";
               mkMessage "Alice" false false "..." None;
               mkMessage "Bob" false false "..." None]
       (set_group_generation_id (Some 1000)
          (set_typing_indicator (Some false) (Demo.page [Demo.group1] ""))),
     [GenerateCall "group_chat" 0 false; GenerateCall "group_chat" 1 false]).
Proof. reflexivity. Qed.

(** While the backend stays silent the call is still polling. *)
Example run_pending :
  (Demo.run Demo.Generate_silent Demo.env 3 false None Demo.no_params
     (Demo.page [Demo.group1] "")).1.1 = Pending.
Proof. reflexivity. Qed.

(** The stop button ends the wait with an error, and the page is idle. *)
Example run_aborted :
  let r := Demo.run Demo.Generate_silent Demo.env_stop 3 false None Demo.no_params
             (Demo.page [Demo.group1] "") in
  r.1.1 = Thrown (Error "Group generation aborted") ∧
  r.2 = [GenerateCall "group_chat" 0 false] ∧
  is_group_generating r.1.2 = false ∧ this_chid r.1.2 = None.
Proof. repeat split; reflexivity. Qed.

(** A failing backend request ends the cycle, and the page is idle. *)
Example run_generate_fails :
  let r := Demo.run Demo.Generate_failing Demo.env 3 false None Demo.no_params
             (Demo.page [Demo.group1] "") in
  r.1.1 = Thrown (Error "request failed") ∧
  is_group_generating r.1.2 = false ∧ this_chid r.1.2 = None.
Proof. repeat split; reflexivity. Qed.

Lemma demo_enters (gs : list Group) (g : Group) (input : string) :
  current_group (Demo.page gs input) = Some g →
  group_members g ≠ [] →
  enters Demo.env (Demo.page gs input) g.
Proof. intros Hg Hm. by repeat split. Qed.

Lemma C1_cleanup_on_every_exit_witness :
  idle (Demo.run Demo.Generate Demo.env 1 false None Demo.no_params
          (Demo.page [Demo.group1] "hello")).1.2.
Proof.
  eapply (C1_cleanup_on_every_exit Demo.Generate Demo.sendMessageAsUser
            Demo.saveChatConditional Demo.sendSystemMessage Demo.getBiasStrings
            Demo.env quarter_draws one_word shuffle_keep (1 # 2)%Q 1 false None
            Demo.no_params (Demo.page [Demo.group1] "hello") Demo.group1
            (Returned RetUndefined)).
  - by apply demo_enters.
  - vm_compute. reflexivity.
  - discriminate.
Defined.

Lemma C2_busy_call_is_noop_witness :
  ∃ r w',
    Demo.run Demo.Generate Demo.env 1 false None Demo.no_params Demo.busy_page
      = (Returned r, w', []) ∧
    chat w' = chat Demo.busy_page ∧ characters w' = characters Demo.busy_page ∧
    groups w' = groups Demo.busy_page ∧
    (online_status Demo.busy_page ≠ "no_connection" → r = RetFalse ∧ w' = Demo.busy_page).
Proof.
  apply (C2_busy_call_is_noop Demo.Generate Demo.sendMessageAsUser
           Demo.saveChatConditional Demo.sendSystemMessage Demo.getBiasStrings
           Demo.env quarter_draws one_word shuffle_keep (1 # 2)%Q 1 false None
           Demo.no_params Demo.busy_page).
  reflexivity.
Defined.

Lemma C10_no_connection_resets_flag_witness :
  is_group_generating offline_busy_page = true ∧
  (Demo.run Demo.Generate Demo.env 1 true (Some "auto") Demo.no_params
     offline_busy_page).1.2 ≠ offline_busy_page.
Proof.
  split; [reflexivity|].
  apply (C10_no_connection_resets_flag Demo.Generate Demo.sendMessageAsUser
           Demo.saveChatConditional Demo.sendSystemMessage Demo.getBiasStrings
           Demo.env quarter_draws one_word shuffle_keep (1 # 2)%Q 1 true (Some "auto")
           Demo.no_params offline_busy_page); reflexivity.
Defined.

(** A swipe when the last message is nobody's: a legacy message (no tag)
    by "You", who is no character. *)
Lemma C5_swipe_no_member_found_witness :
  ∃ w',
    Demo.run Demo.Generate Demo.env 1 false (Some "swipe") Demo.no_params
      (Demo.page [Demo.group1] "") =
      (Thrown (Error "Deleted group member swiped"), w',
       [Toast "Deleted group member swiped. To get a reply, add them back to the group."]) ∧
    idle w' ∧ chat w' = [Demo.user_says "hello"].
Proof.
  apply (C5_swipe_no_member_found Demo.Generate Demo.sendMessageAsUser
           Demo.saveChatConditional Demo.sendSystemMessage Demo.getBiasStrings
           Demo.env quarter_draws one_word shuffle_keep (1 # 2)%Q 1 false
           (Some "swipe") Demo.no_params (Demo.page [Demo.group1] "") Demo.group1
           (Demo.user_says "hello")).
  - by apply demo_enters.
  - by left.
  - reflexivity.
  - reflexivity.
  - reflexivity.
  - reflexivity.
  - intros c Hc Hname. vm_compute in Hc.
    apply elem_of_cons in Hc as [->|Hc]; [done|].
    apply elem_of_cons in Hc as [->|Hc]; [done|].
    by apply elem_of_nil in Hc.
Defined.

(** The user types "hello" into a group whose members are all disabled. *)
Lemma C9_all_members_disabled_witness :
  ∃ o w' rest,
    Demo.run Demo.Generate Demo.env 1 false None Demo.no_params
      (Demo.page [Demo.group3] "hello") =
      (o, w',
       Toast "All group members are disabled. Enable at least one to get a reply."
       :: SendMessageAsUser "hello" "" :: rest) ∧
    (rest = [] ∨ rest = [SaveChat]) ∧
    o ≠ Pending ∧
    idle w' ∧
    ((∀ v, (Demo.sendMessageAsUser "hello" "" v).2 = None) →
     (∀ v, (Demo.saveChatConditional v).2 = None) →
     o = Returned RetUndefined ∧ rest = [SaveChat]).
Proof.
  apply (C9_all_members_disabled Demo.Generate Demo.sendMessageAsUser
           Demo.saveChatConditional Demo.sendSystemMessage Demo.getBiasStrings
           Demo.env quarter_draws one_word shuffle_keep (1 # 2)%Q
           shuffle_keep_permutes 1 false None Demo.no_params
           (Demo.page [Demo.group3] "hello") Demo.group3).
  - by apply demo_enters.
  - split; [reflexivity|]. intros s _. discriminate.
  - reflexivity.
  - intros m Hm. exact Hm.
Defined.

(** * Further properties *)

(** ** List order and policy resolution *)

Lemma filter_from_all {A} (p : A → nat → bool) (i : nat) (l : list A) :
  (∀ j x, l !! j = Some x → p x (i + j)%nat = true) →
  filter_from p i l = l.
Proof.
  revert i. induction l as [|y l IH]; intros i Hall; [done|]. simpl.
  rewrite <- (Nat.add_0_r i) at 1. rewrite (Hall 0%nat y eq_refl).
  f_equal. apply IH. intros j x Hj.
  rewrite Nat.add_succ_l, <- Nat.add_succ_r. by apply (Hall (S j)).
Qed.

Lemma indexOf_NoDup (array : list string) (j : nat) (x : string) :
  NoDup array → array !! j = Some x → indexOf array x = Z.of_nat j.
Proof.
  intros Hnd Hj.
  pose proof (indexOf_lookup _ _ _ Hj) as Hne.
  destruct (findIndex_lookup (String.eqb x) array Hne) as (y & Hy & Heq).
  apply String.eqb_eq in Heq as <-.
  destruct (findIndex_range (String.eqb x) array) as [|[H0 _]]; [done|].
  unfold indexOf in *.
  rewrite <- (NoDup_lookup _ _ _ _ Hnd Hy Hj). lia.
Qed.

Lemma filter_onlyUnique_NoDup (array : list string) :
  NoDup array → filter_onlyUnique array = array.
Proof.
  intros Hnd. apply filter_from_all. intros j x Hj.
  unfold onlyUnique. simpl. apply Z.eqb_eq. by apply indexOf_NoDup.
Qed.

Lemma to_memberIds_all_resolvable characters (l : list string) :
  (∀ m, m ∈ l → resolvable characters m) →
  to_memberIds characters l = List.map (λ m, findIndex (has_avatar m) characters) l.
Proof.
  induction l as [|a l IH]; intros Hall; [done|].
  rewrite to_memberIds_cons.
  destruct (Z.eqb_spec (findIndex (has_avatar a) characters) (-1)) as [He|_].
  - exfalso. revert He. apply findIndex_find. apply Hall. left.
  - simpl. f_equal. apply IH. intros m Hm. apply Hall. by right.
Qed.

Lemma findIndex_avatar_at characters (a : string) :
  findIndex (has_avatar a) characters ≠ -1 →
  ∃ c, at_index characters (findIndex (has_avatar a) characters) = Some c ∧
       char_avatar c = a.
Proof.
  intros Hne. destruct (findIndex_lookup _ _ Hne) as (c & Hc & Hp).
  exists c. split; [|by apply String.eqb_eq in Hp].
  unfold at_index.
  destruct (findIndex_range (has_avatar a) characters) as [|[? _]]; [done|].
  by destruct (Z.ltb_spec (findIndex (has_avatar a) characters) 0); [lia|].
Qed.

(** X1: list order on distinct members that all resolve returns one id per
    member, in the stored order, each id pointing at the registry entry
    with that member's avatar. *)
Theorem list_order_keeps_stored_order characters (members : list string) :
  NoDup members →
  (∀ m, m ∈ members → resolvable characters m) →
  activateListOrder characters members
    = List.map (λ m, findIndex (has_avatar m) characters) members ∧
  Forall2 (λ m id, ∃ c, at_index characters id = Some c ∧ char_avatar c = m)
    members (activateListOrder characters members).
Proof.
  intros Hnd Hall.
  assert (activateListOrder characters members
          = List.map (λ m, findIndex (has_avatar m) characters) members) as Heq.
  { unfold activateListOrder. rewrite filter_onlyUnique_NoDup by done.
    by apply to_memberIds_all_resolvable. }
  split; [done|]. rewrite Heq. clear Heq Hnd.
  induction members as [|m ms IH]; [constructor|]. simpl. constructor.
  - apply findIndex_avatar_at, findIndex_find, Hall. left.
  - apply IH. intros x Hx. apply Hall. by right.
Qed.

Lemma list_order_keeps_stored_order_witness :
  activateListOrder Scenario.registry ["bob.png"; "alice.png"] = [1; 0].
Proof.
  apply (list_order_keeps_stored_order Scenario.registry ["bob.png"; "alice.png"]).
  - apply NoDup_cons. split; [|apply NoDup_singleton].
    intros H%list_elem_of_singleton. discriminate H.
  - intros m Hm. apply elem_of_cons in Hm as [->|Hm]; [by eexists|].
    apply list_elem_of_singleton in Hm as ->. by eexists.
Defined.

Lemma elem_of_enabledMembers (group : Group) (m : string) :
  m ∈ enabledMembers_of group ↔
  m ∈ group_members group ∧ m ∉ group_disabled_members group.
Proof.
  unfold enabledMembers_of. rewrite elem_of_List_filter. unfold includes.
  rewrite negb_true_iff, bool_decide_eq_false. done.
Qed.

Lemma natural_activated_members characters rand extractAllWords shuffle
    talkativeness_default members input lastMessage allowSelfResponses
    isUserInput k member :
  (∀ k l, (shuffle k l).1 ≡ₚ l) →
  member ∈ natural_activated characters rand extractAllWords shuffle
             talkativeness_default members input lastMessage allowSelfResponses
             isUserInput k →
  member ∈ members.
Proof.
  intros Hperm. unfold natural_activated.
  set (banned := bannedUser lastMessage allowSelfResponses isUserInput).
  specialize (Hperm k members).
  destruct (shuffle k members) as [shuffled k1]. simpl in Hperm.
  pose proof (chattiness_pass_eligible characters rand talkativeness_default
                banned k1 shuffled) as Hchat.
  destruct (chattiness_pass _ _ _ banned k1 shuffled) as [chatty k2]. simpl in Hchat.
  pose proof (mention_pass_eligible characters extractAllWords banned input members)
    as Hment.
  destruct (mention_pass _ _ banned input members ++ chatty) as [|a l] eqn:Hact.
  - by intros [? _]%guarantee_pass_resolvable.
  - rewrite <- Hact. intros [Hin|Hin]%elem_of_app.
    + by apply Hment.
    + rewrite <- Hperm. by apply Hchat.
Qed.

(** X2: when a request is resolved by the group's policy (natural or list
    order), every id returned is the registry index of a member of the
    group that is not disabled: a disabled member is never activated. *)
Theorem policy_activates_only_enabled rand extractAllWords shuffle
    talkativeness_default type params group activationText lastMessage
    isUserInput w ids w' t :
  (∀ k l, (shuffle k l).1 ≡ₚ l) →
  by_policy type params →
  resolve_members rand extractAllWords shuffle talkativeness_default type params
    group activationText lastMessage isUserInput w = (Returned ids, w', t) →
  ∀ id, id ∈ ids →
    ∃ c, at_index (characters w) id = Some c ∧
         char_avatar c ∈ group_members group ∧
         char_avatar c ∉ group_disabled_members group.
Proof.
  intros Hperm Hpol Hres id Hid.
  assert (∃ a, a ∈ enabledMembers_of group ∧
               findIndex (has_avatar a) (characters w) = id ∧ id ≠ -1)
    as (a & Ha & Hidx & Hne).
  { revert Hres. unfold resolve_members. run_monad.
    rewrite (proj1 Hpol).
    rewrite !(by_policy_type type params) by (done || (repeat constructor)).
    simpl. fold (enabledMembers_of group).
    destruct (_ =? group_activation_strategy.NATURAL).
    - intros [= <- _ _]. unfold activateNaturalOrder in Hid.
      apply elem_of_to_memberIds in Hid as (a & Ha & ? & ?).
      rewrite elem_of_filter_onlyUnique in Ha.
      apply natural_activated_members in Ha; [|done]. by exists a.
    - destruct (_ =? group_activation_strategy.LIST); intros [= <- _ _].
      + unfold activateListOrder in Hid.
        apply elem_of_to_memberIds in Hid as (a & Ha & ? & ?).
        rewrite elem_of_filter_onlyUnique in Ha. by exists a.
      + by apply elem_of_nil in Hid. }
  subst id. destruct (findIndex_avatar_at _ _ Hne) as (c & Hc & <-).
  exists c. split; [done|]. by apply elem_of_enabledMembers.
Qed.

Lemma policy_activates_only_enabled_witness :
  ∃ c, at_index Scenario.registry 1 = Some c ∧
       char_avatar c ∈ group_members Demo.group2 ∧
       char_avatar c ∉ group_disabled_members Demo.group2.
Proof.
  apply (policy_activates_only_enabled quarter_draws one_word shuffle_keep (1 # 2)%Q
           None Demo.no_params Demo.group2 "hello"
           (last_message (chat (Demo.page [Demo.group2] ""))) false
           (Demo.page [Demo.group2] "") [1] (Demo.page [Demo.group2] "") []).
  - apply shuffle_keep_permutes.
  - split; [reflexivity|]. intros s _. discriminate.
  - reflexivity.
  - left.
Defined.

Lemma chattiness_pass_talkative characters rand talkativeness_default banned k
    shuffledMembers member c :
  unit_draws rand →
  member ∈ shuffledMembers →
  find (has_avatar member) characters = Some c →
  is_banned banned c = false →
  (1 <= effective_talkativeness talkativeness_default c)%Q →
  member ∈ (chattiness_pass characters rand talkativeness_default banned k
              shuffledMembers).1.
Proof.
  intros Hr Hin Hc Hb Ht. revert k.
  induction shuffledMembers as [|m rest IH]; intros k; [by apply elem_of_nil in Hin|].
  simpl.
  destruct (decide (m = member)) as [->|Hne].
  - rewrite Hc, Hb.
    destruct (chattiness_pass _ _ _ _ (S k) rest) as [more k'].
    assert (Qle_bool (rand k) (effective_talkativeness talkativeness_default c) = true)
      as ->.
    { apply Qle_bool_iff. destruct (Hr k) as [_ Hlt].
      apply Qlt_le_weak. by eapply Qlt_le_trans. }
    left.
  - apply elem_of_cons in Hin as [->|Hin]; [done|].
    destruct (find (has_avatar m) characters) as [c'|]; [|by apply IH].
    destruct (is_banned banned c'); [by apply IH|].
    specialize (IH Hin (S k)).
    destruct (chattiness_pass _ _ _ _ (S k) rest) as [more k'].
    destruct (Qle_bool _ _); simpl in *; [by right|done].
Qed.

(** X3: under natural order, a member whose talkativeness is 1 or more,
    who resolves in the registry and is not the banned last speaker, is
    activated in every random outcome. *)
Theorem talkative_member_always_speaks characters rand extractAllWords shuffle
    talkativeness_default members input lastMessage allowSelfResponses
    isUserInput k member c :
  unit_draws rand →
  (∀ k l, (shuffle k l).1 ≡ₚ l) →
  member ∈ members →
  find (has_avatar member) characters = Some c →
  is_banned (bannedUser lastMessage allowSelfResponses isUserInput) c = false →
  (1 <= effective_talkativeness talkativeness_default c)%Q →
  findIndex (has_avatar member) characters ∈
    activateNaturalOrder characters rand extractAllWords shuffle
      talkativeness_default members input lastMessage allowSelfResponses
      isUserInput k.
Proof.
  intros Hr Hperm Hin Hc Hb Ht. unfold activateNaturalOrder.
  apply elem_of_to_memberIds. exists member.
  split; [|split; [done|apply findIndex_find; by rewrite Hc]].
  apply elem_of_filter_onlyUnique. unfold natural_activated.
  set (banned := bannedUser lastMessage allowSelfResponses isUserInput) in *.
  specialize (Hperm k members).
  destruct (shuffle k members) as [shuffled k1]. simpl in Hperm.
  assert (member ∈ (chattiness_pass characters rand talkativeness_default banned
                      k1 shuffled).1) as Hchat.
  { apply (chattiness_pass_talkative _ _ _ _ _ _ _ c); try done. by rewrite Hperm. }
  destruct (chattiness_pass _ _ _ banned k1 shuffled) as [chatty k2]. simpl in Hchat.
  assert (member ∈ mention_pass characters extractAllWords banned input members
                     ++ chatty) as Hall.
  { apply elem_of_app. by right. }
  destruct (mention_pass _ _ banned input members ++ chatty) as [|a l];
    [by apply elem_of_nil in Hall|done].
Qed.

Lemma talkative_member_always_speaks_witness :
  0 ∈ activateNaturalOrder Scenario.registry quarter_draws one_word shuffle_keep
        (1 # 2)%Q Scenario.members "hello" (Some (Demo.user_says "hello")) false
        true 0.
Proof.
  apply (talkative_member_always_speaks Scenario.registry quarter_draws one_word
           shuffle_keep (1 # 2)%Q Scenario.members "hello"
           (Some (Demo.user_says "hello")) false true 0%nat "alice.png"
           Scenario.alice).
  - apply quarter_draws_unit.
  - apply shuffle_keep_permutes.
  - left.
  - reflexivity.
  - reflexivity.
  - apply Qle_bool_imp_le. reflexivity.
Defined.

(** ** The sequencer: further exits and the order of generation *)

Lemma silent_bind {A B} (m : M A) (f : A → M B) :
  silent m → (∀ a, silent (f a)) → silent (bind m f).
Proof.
  intros Hm Hf w. unfold bind. specialize (Hm w).
  destruct (m w) as [[[a|e|] w1] t1]; simpl in Hm; subst t1; [|done..].
  specialize (Hf a w1). by destruct (f a w1) as [[o2 w2] t2].
Qed.

Ltac silent_step :=
  lazymatch goal with
  | |- silent (bind _ _) => apply silent_bind; [|intros ?]
  | |- silent (if ?b then _ else _) => destruct b
  | |- silent (match ?x with _ => _ end) => destruct x
  | |- silent (ret _) => by intros ?
  | |- silent (throw _) => by intros ?
  | |- silent pending => by intros ?
  | |- silent get => by intros ?
  | |- silent (modify _) => by intros ?
  end.


Section SequencerMore.

Variable Generate : string → bool → Params → External.
Variable sendMessageAsUser : string → string → External.
Variable saveChatConditional : External.
Variable sendSystemMessage : string → World → World.
Variable getBiasStrings : string → option string → string.
Variable env : World → World.
Variable rand : nat → Q.
Variable extractAllWords : string → list string.
Variable shuffle : nat → list string → list string * nat.
Variable talkativeness_default : Q.

Local Abbreviation phase :=
  (generation_phase Generate sendMessageAsUser saveChatConditional
     getBiasStrings env rand extractAllWords shuffle talkativeness_default).
Local Abbreviation resolution :=
  (resolve_members rand extractAllWords shuffle talkativeness_default).
Local Abbreviation members_loop :=
  (generate_members Generate env).

(** When resolution returns somebody, the phase goes on with the loop over
    the activated members. *)
Lemma phase_resolution_members fuel by_auto_mode type params group w ids w' t :
  signal params && signal_aborted w = false →
  resolution type params group (activationText_of by_auto_mode w)
    (last_message (chat w)) (isUserInput_of by_auto_mode w) (prepare w)
    = (Returned ids, w', t) →
  ids ≠ [] →
  phase fuel by_auto_mode type params group w =
    let '(o, w2, t2) :=
      members_loop fuel by_auto_mode type params (send_textarea w)
        (from_option msg_mes "" (last_message (chat w))) ids
        (messagesBefore_of by_auto_mode w) w' in
    (o, w2, t ++ t2).
Proof.
  intros Hsig Hres Hne. unfold generation_phase. run_monad.
  unfold prepare, activationText_of, isUserInput_of, messagesBefore_of in *.
  destruct ids as [|i l]; [done|].
  cbn [send_textarea set_swipe_buttons_shown set_is_group_generating set_name2
       set_this_chid chat typing_indicator streaming_enabled now signal_aborted] in *.
  destruct (bool_decide _ && negb _);
    cbn [send_textarea set_swipe_buttons_shown set_is_group_generating set_name2
         set_this_chid chat typing_indicator streaming_enabled now signal_aborted
         set_typing_indicator set_group_generation_id set_isGenerationDone
         set_isGenerationAborted];
    rewrite Hsig; cbv iota; rewrite Hres; cbn [length Nat.eqb];
    destruct (generate_members _ _ _ _ _ _ _ _ _ _ _) as [[o w2] t2];
    by rewrite ?app_nil_r, ?app_nil_l, ?app_assoc.
Qed.

(** X4: a forced member id that is no index of the registry is not
    checked by resolution; the cycle fails with a [TypeError] when it
    reads the character's name, before any call to [Generate], and the
    page is left idle. *)
Theorem forced_unknown_id_fails fuel by_auto_mode type params w group chid :
  enters env w group →
  force_chid params = Some chid →
  signal params && signal_aborted (after_navigate env w) = false →
  at_index (characters (after_navigate env w)) chid = None →
  ∃ w',
    generateGroupWrapper Generate sendMessageAsUser saveChatConditional
      sendSystemMessage getBiasStrings env rand extractAllWords shuffle
      talkativeness_default fuel by_auto_mode type params w
      = (Thrown TypeError, w', []) ∧
    idle w'.
Proof.
  intros Henters Hforce Hsig Hnone.
  rewrite wrapper_enters with (group := group) by done.
  set (w1 := after_navigate env w) in *.
  destruct (prepare_preserves w1) as (_ & Hchars & _ & _).
  unfold try_finally.
  erewrite phase_resolution_members with (ids := [chid]); [| done | | done].
  2:{ unfold resolve_members. run_monad. by rewrite Hforce. }
  cbn [generate_members]. unfold character_name. run_monad.
  cbn [characters set_this_chid set_isGenerationDone set_send_buttons_active].
  rewrite Hchars, Hnone.
  match goal with |- context [cleanup ?v] =>
    destruct (cleanup_returns v) as (w' & -> & Hidle & _) end.
  by exists w'.
Qed.

(** X5: a call given a signal that is already aborted stops with an error
    before members are resolved: nothing is asked of any collaborator,
    the chat is untouched and the page is left idle. *)
Theorem aborted_signal_stops_before_resolution fuel by_auto_mode type params w group :
  enters env w group →
  signal params = true →
  signal_aborted (after_navigate env w) = true →
  ∃ w',
    generateGroupWrapper Generate sendMessageAsUser saveChatConditional
      sendSystemMessage getBiasStrings env rand extractAllWords shuffle
      talkativeness_default fuel by_auto_mode type params w
      = (Thrown (Error "Already aborted signal passed. Group generation stopped"),
         w', []) ∧
    idle w' ∧ chat w' = chat (after_navigate env w) ∧
    send_textarea w' = send_textarea (after_navigate env w).
Proof.
  intros Henters Hsig Hab.
  rewrite wrapper_enters with (group := group) by done.
  set (w1 := after_navigate env w) in *.
  unfold try_finally, generation_phase. run_monad.
  cbn [signal_aborted set_this_chid set_name2 set_is_group_generating
       set_swipe_buttons_shown].
  rewrite Hsig, Hab.
  destruct (bool_decide _ && negb _); cbv iota beta;
    (eexists; split; [reflexivity|]; by repeat split).
Qed.

(** X6: with no group selected, or a selected group without members, a
    call that passes the guards asks for the EMPTY system message and
    nothing else: it neither sets the generating flag nor runs the
    cleanup. *)
Theorem empty_group_only_notifies fuel by_auto_mode type params w :
  online_status w ≠ "no_connection" →
  is_group_generating w = false →
  from_option (λ g, bool_decide (group_members g = [])) true
    (current_group (after_navigate env w)) = true →
  generateGroupWrapper Generate sendMessageAsUser saveChatConditional
    sendSystemMessage getBiasStrings env rand extractAllWords shuffle
    talkativeness_default fuel by_auto_mode type params w
  = (Returned RetUndefined, sendSystemMessage "empty" (after_navigate env w),
     [SystemMessage "empty"]).
Proof.
  intros Hon Hidle Hempty. unfold generateGroupWrapper. run_monad.
  destruct (String.eqb_spec (online_status w) "no_connection") as [|_]; [done|].
  rewrite Hidle, navigate_returns.
  destruct (current_group (after_navigate env w)) as [g|]; [|done].
  simpl in Hempty. apply bool_decide_eq_true in Hempty. by rewrite Hempty.
Qed.

Lemma poll_silent fuel type generateType userInput lastMessageText messagesBefore w :
  (poll env fuel type generateType userInput lastMessageText messagesBefore w).2 = [].
Proof.
  revert w. change (silent (poll env fuel type generateType userInput
                              lastMessageText messagesBefore)).
  induction fuel as [|fuel IH]; [done|].
  cbn [poll]. unfold mbind, M_bind, deactivateSendButtons, delay.
  repeat first [apply IH | silent_step].
Qed.

Lemma emits_silent {A} (m : M A) : silent m → emits [] m.
Proof. intros Hm w. exists 0%nat. by rewrite Hm. Qed.

Lemma emits_bind {A B} (events1 events2 : list Event) (m : M A) (f : A → M B) :
  emits events1 m → (∀ a, emits events2 (f a)) →
  emits (events1 ++ events2) (bind m f).
Proof.
  intros Hm Hf w. unfold bind. destruct (Hm w) as (n & Hn & Hall).
  destruct (m w) as [[[a|e|] w1] t1]; simpl in *.
  - rewrite (Hall I) in *. destruct (Hf a w1) as (n2 & Hn2 & Hall2).
    destruct (f a w1) as [[o2 w2] t2]. simpl in *.
    exists (length events1 + n2)%nat. split.
    + by rewrite take_app_add, Hn2.
    + intros Ho. by rewrite Hall2.
  - exists (n `min` length events1)%nat. split; [|done].
    rewrite Hn, take_app_le by lia.
    destruct (Nat.min_spec n (length events1)) as [[? ->]|[? ->]]; [done|].
    by rewrite !take_ge by lia.
  - exists (n `min` length events1)%nat. split; [|done].
    rewrite Hn, take_app_le by lia.
    destruct (Nat.min_spec n (length events1)) as [[? ->]|[? ->]]; [done|].
    by rewrite !take_ge by lia.
Qed.

Lemma emits_emit (e : Event) : emits [e] (emit e).
Proof. intros w. by exists 1%nat. Qed.

Lemma silent_call (f : External) : silent (call f).
Proof. intros w. unfold call. by destruct (f w) as [w' [e|]]. Qed.

Lemma silent_character_name (chId : Z) : silent (character_name chId).
Proof. unfold character_name, mbind, M_bind. repeat silent_step. Qed.

Lemma members_loop_emits fuel by_auto_mode type params userInput lastMessageText
    ids messagesBefore :
  emits (generate_calls type by_auto_mode ids)
    (members_loop fuel by_auto_mode type params userInput lastMessageText ids
       messagesBefore).
Proof.
  revert messagesBefore.
  induction ids as [|chId rest IH]; intros messagesBefore.
  { apply emits_silent. by intros w. }
  cbn [generate_members]. unfold mbind, M_bind.
  unfold deactivateSendButtons, setCharacterId, setCharacterName.
  apply (emits_bind [] _); [apply emits_silent; silent_step|intros _].
  apply (emits_bind [] _); [apply emits_silent; silent_step|intros _].
  apply (emits_bind [] _); [apply emits_silent; silent_step|intros _].
  apply (emits_bind [] _); [apply emits_silent, silent_character_name|intros name].
  apply (emits_bind [] _); [apply emits_silent; silent_step|intros _].
  apply (emits_bind [_] _); [apply emits_emit|intros _].
  apply (emits_bind [] _); [apply emits_silent, silent_call|intros _].
  apply (emits_bind [] _); [apply emits_silent; silent_step|intros v].
  apply (emits_bind [] _).
  { apply emits_silent. destruct (_ && _); [|silent_step].
    apply silent_bind; [apply silent_character_name|intros _; silent_step]. }
  intros _.
  apply (emits_bind [] _); [|intros mb; apply IH].
  apply emits_silent. intros w0. apply poll_silent.
Qed.

(** X7: the loop over the activated members calls [Generate] for an
    initial segment of them, in the resolver's order and once each; when
    the loop completes, that segment is the whole list. *)
Theorem generation_follows_resolver_order fuel by_auto_mode type params userInput
    lastMessageText ids messagesBefore w :
  ∃ n,
    (generate_members Generate env fuel by_auto_mode type params userInput
       lastMessageText ids messagesBefore w).2 = generate_calls type by_auto_mode (take n ids) ∧
    ((generate_members Generate env fuel by_auto_mode type params userInput
        lastMessageText ids messagesBefore w).1.1 = Returned tt →
     (generate_members Generate env fuel by_auto_mode type params userInput
        lastMessageText ids messagesBefore w).2 = generate_calls type by_auto_mode ids).
Proof.
  destruct (members_loop_emits fuel by_auto_mode type params userInput
              lastMessageText ids messagesBefore w) as (n & Hn & Hall).
  exists n. split.
  - rewrite Hn. unfold generate_calls. apply firstn_map.
  - intros Ho. apply Hall. by rewrite Ho.
Qed.

End SequencerMore.

Section AbortDuringGeneration.

Variable Generate : string → bool → Params → External.
Variable env : World → World.

(** X8: when the abort arrives while a member's [Generate] call is
    awaited, the loop stops at the next check with the error "Group
    generation aborted": that member's call is the only one made, the
    remaining members are skipped. *)
Theorem abort_skips_remaining_members fuel by_auto_mode type params userInput
    lastMessageText chId rest messagesBefore w c :
  at_index (characters w) chId = Some c →
  (∀ v, (Generate (generateType_of type) by_auto_mode params v).2 = None) →
  (∀ v, isGenerationAborted (Generate (generateType_of type) by_auto_mode params v).1
        = true) →
  (∀ v, characters (Generate (generateType_of type) by_auto_mode params v).1
        = characters v) →
  ∃ w',
    generate_members Generate env (S fuel) by_auto_mode type params userInput
      lastMessageText (chId :: rest) messagesBefore w
    = (Thrown (Error "Group generation aborted"), w',
       [GenerateCall (generateType_of type) chId by_auto_mode]).
Proof.
  intros Hc Hok Hab Hchars.
  cbn [generate_members poll]. unfold character_name. run_monad.
  cbn [characters set_this_chid set_isGenerationDone set_send_buttons_active].
  rewrite Hc. cbv iota beta.
  match goal with |- context [Generate ?g ?b ?p ?v] =>
    specialize (Hok v); specialize (Hab v); specialize (Hchars v);
    destruct (Generate g b p v) as [w1 o] end.
  simpl in Hok, Hab, Hchars. subst o. cbv iota beta.
  cbn [characters set_name2 set_this_chid set_isGenerationDone
       set_send_buttons_active] in Hchars.
  destruct (negb _ && negb _ && negb _ && negb _).
  - rewrite Hchars, Hc. cbv iota beta.
    cbn [isGenerationAborted set_send_buttons_active set_typing_indicator].
    rewrite Hab. by eexists.
  - cbv iota beta. cbn [isGenerationAborted set_send_buttons_active].
    rewrite Hab. by eexists.
Qed.

End AbortDuringGeneration.

Lemma abort_skips_remaining_members_witness :
  ∃ w',
    Cases.members_loop Cases.Generate_stopped 1 [0; 1] (Demo.page [Demo.group1] "")
    = (Thrown (Error "Group generation aborted"), w',
       [GenerateCall "group_chat" 0 false]).
Proof.
  apply (abort_skips_remaining_members Cases.Generate_stopped Demo.env 0 false None
           Demo.no_params "" "hello" 0 [1] 1%nat (Demo.page [Demo.group1] "")
           Scenario.alice); reflexivity.
Defined.

Lemma forced_unknown_id_fails_witness :
  ∃ w',
    Demo.run Demo.Generate Demo.env 1 false None (mkParams (Some 7) false false false)
      (Demo.page [Demo.group1] "")
    = (Thrown TypeError, w', []) ∧ idle w'.
Proof.
  apply (forced_unknown_id_fails Demo.Generate Demo.sendMessageAsUser
           Demo.saveChatConditional Demo.sendSystemMessage Demo.getBiasStrings
           Demo.env quarter_draws one_word shuffle_keep (1 # 2)%Q 1 false None
           (mkParams (Some 7) false false false) (Demo.page [Demo.group1] "")
           Demo.group1 7).
  - by apply demo_enters.
  - reflexivity.
  - reflexivity.
  - reflexivity.
Defined.

Lemma aborted_signal_stops_before_resolution_witness :
  ∃ w',
    Demo.run Demo.Generate Demo.env 1 true (Some "auto") auto_params
      (set_signal_aborted true (Demo.page [Demo.group1] "typed"))
    = (Thrown (Error "Already aborted signal passed. Group generation stopped"),
       w', []) ∧
    idle w' ∧ chat w' = [Demo.user_says "hello"] ∧ send_textarea w' = "typed".
Proof.
  apply (aborted_signal_stops_before_resolution Demo.Generate Demo.sendMessageAsUser
           Demo.saveChatConditional Demo.sendSystemMessage Demo.getBiasStrings
           Demo.env quarter_draws one_word shuffle_keep (1 # 2)%Q 1 true (Some "auto")
           auto_params (set_signal_aborted true (Demo.page [Demo.group1] "typed"))
           Demo.group1).
  - split; [done|]. split; [reflexivity|]. split; [reflexivity|done].
  - reflexivity.
  - reflexivity.
Defined.

Lemma empty_group_only_notifies_witness :
  Demo.run Demo.Generate Demo.env 1 false None Demo.no_params (Demo.page [] "hello")
  = (Returned RetUndefined, Demo.page [] "hello", [SystemMessage "empty"]).
Proof.
  apply (empty_group_only_notifies Demo.Generate Demo.sendMessageAsUser
           Demo.saveChatConditional Demo.sendSystemMessage Demo.getBiasStrings
           Demo.env quarter_draws one_word shuffle_keep (1 # 2)%Q 1 false None
           Demo.no_params (Demo.page [] "hello")).
  - discriminate.
  - reflexivity.
  - reflexivity.
Defined.

(** ** Auto-mode scheduler *)

Section AutoModeFacts.

Variable Generate : string → bool → Params → External.
Variable sendMessageAsUser : string → string → External.
Variable saveChatConditional : External.
Variable sendSystemMessage : string → World → World.
Variable getBiasStrings : string → option string → string.
Variable env : World → World.
Variable rand : nat → Q.
Variable extractAllWords : string → list string.
Variable shuffle : nat → list string → list string * nat.
Variable talkativeness_default : Q.

Local Abbreviation worker :=
  (groupChatAutoModeWorker Generate sendMessageAsUser saveChatConditional
     sendSystemMessage getBiasStrings env rand extractAllWords shuffle
     talkativeness_default).

(** X9: a timer tick starts nothing and changes nothing when auto mode is
    off, the backend is disconnected, no group is selected, a message is
    being sent, a cycle is generating, or the selected group is missing
    or has no member.  In particular a tick made while disconnected
    leaves the generating flag alone. *)
Theorem tick_respects_guards fuel a w :
  is_group_automode_enabled a = false ∨
  online_status w = "no_connection" ∨
  truthy (selected_group w) = false ∨
  is_send_press w = true ∨
  is_group_generating w = true ∨
  from_option (λ g, bool_decide (group_members g = [])) true (current_group w) = true →
  groupChatAutoModeWorker Generate sendMessageAsUser saveChatConditional
    sendSystemMessage getBiasStrings env rand extractAllWords shuffle
    talkativeness_default fuel a w = (a, (Returned tt, w, [])).
Proof.
  unfold groupChatAutoModeWorker. intros H.
  destruct (is_group_automode_enabled a) eqn:Ha; simpl; [|done].
  destruct (String.eqb_spec (online_status w) "no_connection") as [Hoff|Hon]; [done|].
  destruct (truthy (selected_group w)) eqn:Hs; simpl; [|done].
  destruct (is_send_press w) eqn:Hp; simpl; [done|].
  destruct (is_group_generating w) eqn:Hg; simpl; [done|].
  destruct (current_group w) as [g|]; [|done].
  destruct H as [H|[H|[H|[H|[H|H]]]]]; try done.
  simpl in H. apply bool_decide_eq_true in H. by rewrite H.
Qed.


(** X11: once the user has typed in the send box, or generation has been
    stopped, a tick starts nothing; typing leaves the controller of the
    running cycle alone, stopping aborts it. *)
Theorem typing_or_stop_silences_ticks fuel a w :
  groupChatAutoModeWorker Generate sendMessageAsUser saveChatConditional
    sendSystemMessage getBiasStrings env rand extractAllWords shuffle
    talkativeness_default fuel (onSendTextareaInput a) w
    = (onSendTextareaInput a, (Returned tt, w, [])) ∧
  groupChatAutoModeWorker Generate sendMessageAsUser saveChatConditional
    sendSystemMessage getBiasStrings env rand extractAllWords shuffle
    talkativeness_default fuel (stopAutoModeGeneration a) w
    = (stopAutoModeGeneration a, (Returned tt, w, [])) ∧
  groupAutoModeAbortController (onSendTextareaInput a)
    = groupAutoModeAbortController a ∧
  groupAutoModeAbortController (stopAutoModeGeneration a)
    = (λ _, true) <$> groupAutoModeAbortController a.
Proof.
  assert (∀ b, is_group_automode_enabled b = false →
            worker fuel b w = (b, (Returned tt, w, []))) as Hoff.
  { intros b Hb. unfold groupChatAutoModeWorker. by rewrite Hb. }
  split; [|split; [|split]].
  - apply Hoff. unfold onSendTextareaInput.
    by destruct (is_group_automode_enabled a) eqn:?.
  - by apply Hoff.
  - unfold onSendTextareaInput. by destruct (is_group_automode_enabled a).
  - done.
Qed.

End AutoModeFacts.

Lemma tick_respects_guards_witness :
  Cases.tick 1 Cases.auto_on offline_busy_page
  = (Cases.auto_on, (Returned tt, offline_busy_page, [])).
Proof.
  apply (tick_respects_guards Demo.Generate Demo.sendMessageAsUser
           Demo.saveChatConditional Demo.sendSystemMessage Demo.getBiasStrings
           Demo.env quarter_draws one_word shuffle_keep (1 # 2)%Q 1 Cases.auto_on
           offline_busy_page).
  right. left. reflexivity.
Defined.


(** ** Regenerating the last batch *)

Section RegenerateFacts.

Variable deleteLastMessage : list Tagged → list Tagged.

(** [deleteLastMessage] drops the last message of the chat. *)
Hypothesis deleteLastMessage_pops : ∀ chat m, deleteLastMessage (chat ++ [m]) = chat.

Lemma regenerate_loop_splits fuel generationId chat :
  (length chat < fuel)%nat →
  ∃ kept removed,
    regenerate_loop deleteLastMessage fuel generationId chat = Some kept ∧
    chat = kept ++ removed ∧
    Forall (of_batch generationId) removed ∧
    batch_boundary generationId kept.
Proof.
  revert chat. induction fuel as [|fuel IH]; intros chat Hlen; [lia|].
  cbn [regenerate_loop].
  destruct (last chat) as [[lastMes g]|] eqn:Hlast.
  2:{ apply last_None in Hlast as ->. exists [], []. by repeat split. }
  destruct (id_truthy generationId && id_truthy g
            && negb (bool_decide (generationId = g))) eqn:Hnew.
  { exists chat, []. rewrite app_nil_r. repeat split; [constructor|].
    unfold batch_boundary. rewrite Hlast. intros (_ & _ & Heq).
    apply andb_true_iff in Hnew as [[Hg1 Hg2]%andb_true_iff Hne].
    apply negb_true_iff, bool_decide_eq_false in Hne.
    specialize (Heq Hg1 Hg2). simpl in Heq. by apply Hne. }
  destruct (msg_is_user lastMes || msg_is_system lastMes) eqn:Hlegacy.
  { exists chat, []. rewrite app_nil_r. repeat split; [constructor|].
    unfold batch_boundary. rewrite Hlast. intros (Hu & Hs & _). simpl in *.
    by rewrite Hu, Hs in Hlegacy. }
  apply last_Some in Hlast as [chat' ->].
  rewrite deleteLastMessage_pops.
  destruct (IH chat') as (kept & removed & -> & -> & Hall & Hstop).
  { rewrite length_app in Hlen. simpl in Hlen. lia. }
  exists kept, (removed ++ [(lastMes, g)]).
  split; [done|]. split; [by rewrite app_assoc|]. split; [|done].
  apply Forall_app. split; [done|]. constructor; [|constructor].
  apply orb_false_iff in Hlegacy as [Hu Hs]. repeat split; try done.
  simpl. intros Hg1 Hg2. rewrite Hg1, Hg2 in Hnew. simpl in Hnew.
  apply negb_false_iff, bool_decide_eq_true in Hnew. done.
Qed.

(** X12: regenerating deletes a trailing run of the chat and nothing
    else: the loop ends within one round per message, what it keeps is
    an initial part of the chat in the same order, and every deleted
    message was written by a character (never by the user or the system)
    and, where both ids are set, carries the id of the last message's
    batch. *)
Theorem regenerate_deletes_last_batch chat :
  ∃ kept removed,
    regenerateGroup deleteLastMessage (S (length chat)) chat = Some kept ∧
    chat = kept ++ removed ∧
    Forall (of_batch (getLastMessageGenerationId chat)) removed.
Proof.
  destruct (regenerate_loop_splits (S (length chat))
              (getLastMessageGenerationId chat) chat) as (kept & removed & H);
    [lia|].
  exists kept, removed. tauto.
Qed.

(** X13: regenerating deletes the whole batch: the chat it leaves is
    empty or ends with a message the loop would not delete, that is one
    by the user or the system, or one of another batch. *)
Theorem regenerate_stops_at_batch_boundary chat :
  ∃ kept,
    regenerateGroup deleteLastMessage (S (length chat)) chat = Some kept ∧
    batch_boundary (getLastMessageGenerationId chat) kept.
Proof.
  destruct (regenerate_loop_splits (S (length chat))
              (getLastMessageGenerationId chat) chat) as (kept & removed & H);
    [lia|].
  exists kept. tauto.
Qed.

End RegenerateFacts.

Lemma removelast_pops (chat : list Tagged) (m : Tagged) :
  Cases.deleteLastMessage (chat ++ [m]) = chat.
Proof. apply removelast_last. Qed.

Lemma regenerate_deletes_last_batch_witness :
  ∃ kept removed,
    regenerateGroup Cases.deleteLastMessage 4 Cases.batch_chat = Some kept ∧
    Cases.batch_chat = kept ++ removed ∧
    Forall (of_batch (Some 7)) removed.
Proof.
  exact (regenerate_deletes_last_batch Cases.deleteLastMessage removelast_pops Cases.batch_chat).
Defined.

Lemma regenerate_stops_at_batch_boundary_witness :
  ∃ kept,
    regenerateGroup Cases.deleteLastMessage 4 Cases.batch_chat = Some kept ∧
    batch_boundary (Some 7) kept.
Proof.
  exact (regenerate_stops_at_batch_boundary Cases.deleteLastMessage removelast_pops
           Cases.batch_chat).
Defined.

(** On the example the two answers go and the user's message stays. *)
Example regenerate_example :
  regenerateGroup Cases.deleteLastMessage 4 Cases.batch_chat = Some [(Demo.user_says "hello", None)].
Proof. reflexivity. Qed.

(** ** Editing the member list *)

Lemma findIndex_app_first {A} (p : A → bool) (l1 l2 : list A) (x : A) :
  (∀ e, e ∈ l1 → p e = false) → p x = true →
  findIndex p (l1 ++ x :: l2) = Z.of_nat (length l1).
Proof.
  intros Hl1 Hx. induction l1 as [|e l1 IH]; simpl; [by rewrite Hx|].
  rewrite (Hl1 e) by left. rewrite IH by (intros e' He'; apply Hl1; by right).
  destruct (Z.eqb_spec (Z.of_nat (length l1)) (-1)); lia.
Qed.

Lemma findIndex_none {A} (p : A → bool) (l : list A) :
  (∀ e, e ∈ l → p e = false) → findIndex p l = -1.
Proof.
  intros Hl. induction l as [|e l IH]; [done|]. simpl.
  rewrite (Hl e) by left. by rewrite IH by (intros e' He'; apply Hl; by right).
Qed.

Lemma array_indexOf_first (a : MemberArray) (id : string) l1 l2 :
  elements a = l1 ++ Some id :: l2 → Some id ∉ l1 →
  array_indexOf a id = Z.of_nat (length l1).
Proof.
  intros Hel Hl1. unfold array_indexOf. rewrite Hel.
  apply findIndex_app_first; [|by apply bool_decide_eq_true].
  intros e He. apply bool_decide_eq_false. by intros ->.
Qed.

Lemma array_indexOf_absent (a : MemberArray) (id : string) :
  Some id ∉ elements a → array_indexOf a id = -1.
Proof.
  intros Hno. apply findIndex_none. intros e He.
  apply bool_decide_eq_false. by intros ->.
Qed.

Lemma find_update_found {A} (p : A → bool) (f : A → A) (l : list A) :
  (∀ x, p (f x) = p x) → find p (update_found p f l) = f <$> find p l.
Proof.
  intros Hp. induction l as [|x l IH]; [done|]. cbn [find update_found].
  destruct (p x) eqn:Hx; cbn [find]; [by rewrite Hp, Hx|by rewrite Hx].
Qed.

Lemma update_found_compose {A} (p : A → bool) (f g : A → A) (l : list A) :
  (∀ x, p (g x) = p x) →
  update_found p f (update_found p g l) = update_found p (λ x, f (g x)) l.
Proof.
  intros Hp. induction l as [|x l IH]; [done|]. cbn [update_found].
  destruct (p x) eqn:Hx; cbn [update_found]; [by rewrite Hp, Hx|by rewrite Hx, IH].
Qed.

Lemma update_found_same {A} (p : A → bool) (f : A → A) (l : list A) :
  (∀ x, f x = x) → update_found p f l = l.
Proof.
  intros Hf. induction l as [|x l IH]; [done|]. cbn [update_found].
  destruct (p x); [by rewrite Hf|by rewrite IH].
Qed.

Lemma has_id_members chat_id (g : EditedGroup) (m : MemberArray) (d : list string) :
  has_id chat_id (mkEditedGroup (edited_id g) m d) = has_id chat_id g.
Proof. by destruct chat_id. Qed.

(** Two edits of the array picked for the same id compose. *)
Lemma on_memberArray_compose chat_id (f g : MemberArray → MemberArray) ed :
  on_memberArray chat_id f (on_memberArray chat_id g ed)
  = on_memberArray chat_id (λ a, f (g a)) ed.
Proof.
  unfold on_memberArray. destruct ed as [gs new open]. cbn [editor_groups
    editor_newGroupMembers editor_openGroupId].
  destruct (find (has_id chat_id) gs) as [x|] eqn:Hfind;
    cbn [editor_groups editor_newGroupMembers editor_openGroupId].
  - rewrite find_update_found, Hfind by (intros; apply has_id_members).
    cbn [fmap option_fmap option_map]. f_equal.
    rewrite update_found_compose by (intros; apply has_id_members). done.
  - by rewrite Hfind.
Qed.

Lemma on_memberArray_same chat_id (f : MemberArray → MemberArray) ed :
  (∀ a, f a = a) → on_memberArray chat_id f ed = ed.
Proof.
  intros Hf. unfold on_memberArray. destruct ed as [gs new open].
  cbn [editor_groups editor_newGroupMembers editor_openGroupId].
  destruct (find (has_id chat_id) gs); [|by rewrite Hf].
  f_equal. apply update_found_same. intros [i m d]. simpl. by rewrite Hf.
Qed.

(** X14: adding a member and then removing it again gives back the editor
    state: the avatar goes to the front of the array, and the removal
    takes out that first occurrence. *)
Theorem add_then_remove_member chat_id id ed :
  modifyGroupMember chat_id id true (modifyGroupMember chat_id id false ed) = ed.
Proof.
  unfold modifyGroupMember. rewrite on_memberArray_compose.
  apply on_memberArray_same. intros [els slot].
  unfold modified_members, array_indexOf. simpl.
  by rewrite bool_decide_eq_true_2.
Qed.

(** X15: removing a member takes out its first occurrence only and keeps
    the other elements in order; removing an avatar that is not in the
    array changes nothing. *)
Theorem remove_member_first_occurrence (a : MemberArray) (id : string) :
  (Some id ∉ elements a → modified_members a id true = a) ∧
  (∀ l1 l2, elements a = l1 ++ Some id :: l2 → Some id ∉ l1 →
     modified_members a id true = mkMemberArray (l1 ++ l2) (minus_one a)).
Proof.
  split.
  - intros Hno. unfold modified_members.
    fold (array_indexOf a id). by rewrite array_indexOf_absent.
  - intros l1 l2 Hel Hl1. unfold modified_members.
    fold (array_indexOf a id). rewrite (array_indexOf_first a id l1 l2) by done.
    destruct (Z.eqb_spec (Z.of_nat (length l1)) (-1)) as [|_]; [lia|]. simpl.
    by rewrite Nat2Z.id, Hel, delete_middle.
Qed.

Lemma array_get_nat (a : MemberArray) (n : nat) :
  array_get a (Z.of_nat n) = mjoin (elements a !! n).
Proof.
  unfold array_get.
  destruct (Z.eqb_spec (Z.of_nat n) (-1)) as [|_]; [lia|].
  destruct (Z.ltb_spec (Z.of_nat n) 0) as [|_]; [lia|]. by rewrite Nat2Z.id.
Qed.

Lemma array_set_nat (a : MemberArray) (n : nat) (v : option string) :
  (n < length (elements a))%nat →
  array_set a (Z.of_nat n) v = mkMemberArray (<[n := v]> (elements a)) (minus_one a).
Proof.
  intros Hn. unfold array_set.
  destruct (Z.eqb_spec (Z.of_nat n) (-1)) as [|_]; [lia|].
  destruct (Z.ltb_spec (Z.of_nat n) 0) as [|_]; [lia|]. rewrite Nat2Z.id.
  by destruct (Nat.ltb_spec n (length (elements a))); [|lia].
Qed.

Lemma swap_in_middle {A} (l1 l2 : list A) (x y : A) :
  <[S (length l1) := x]> (<[length l1 := y]> (l1 ++ x :: y :: l2))
  = l1 ++ y :: x :: l2.
Proof.
  rewrite (insert_app_r_alt l1 _ (length l1)) by lia.
  rewrite (insert_app_r_alt l1 _ (S (length l1))) by lia.
  replace (length l1 - length l1)%nat with 0%nat by lia.
  by replace (S (length l1) - length l1)%nat with 1%nat by lia.
Qed.

Lemma swap_in_middle' {A} (l1 l2 : list A) (x y : A) :
  <[length l1 := y]> (<[S (length l1) := x]> (l1 ++ x :: y :: l2))
  = l1 ++ y :: x :: l2.
Proof.
  rewrite (insert_app_r_alt l1 _ (S (length l1))) by lia.
  rewrite (insert_app_r_alt l1 _ (length l1)) by lia.
  replace (length l1 - length l1)%nat with 0%nat by lia.
  by replace (S (length l1) - length l1)%nat with 1%nat by lia.
Qed.

Lemma reordered_up (a : MemberArray) (id x : string) l1 l2 :
  x ≠ "" → x ≠ id → Some id ∉ l1 →
  elements a = l1 ++ Some x :: Some id :: l2 →
  reordered_members a id "up"
  = mkMemberArray (l1 ++ Some id :: Some x :: l2) (minus_one a).
Proof.
  intros Hx Hne Hl1 Hel.
  assert (array_indexOf a id = Z.of_nat (S (length l1))) as Hidx.
  { rewrite (array_indexOf_first a id (l1 ++ [Some x]) l2).
    - by rewrite length_app, Nat.add_1_r.
    - by rewrite <- app_assoc.
    - intros [?|Hin]%elem_of_app; [done|].
      apply list_elem_of_singleton in Hin. congruence. }
  unfold reordered_members. rewrite Hidx.
  change (String.eqb "up" "down") with false.
  change (String.eqb "up" "up") with true. cbv iota.
  replace (Z.of_nat (S (length l1)) - 1) with (Z.of_nat (length l1)) by lia.
  rewrite !array_get_nat, Hel.
  rewrite (list_lookup_middle l1 _ (Some x) (length l1)) by done.
  rewrite (lookup_app_r l1) by lia.
  replace (S (length l1) - length l1)%nat with 1%nat by lia.
  cbn [lookup list_lookup mjoin option_join truthy].
  destruct (String.eqb_spec x "") as [|_]; [done|]. cbn [negb].
  rewrite (array_set_nat a) by (rewrite Hel, length_app; simpl; lia).
  rewrite array_set_nat
    by (cbn [elements]; rewrite length_insert, Hel, length_app; simpl; lia).
  cbn [elements minus_one]. by rewrite Hel, swap_in_middle.
Qed.

Lemma reordered_down (a : MemberArray) (id y : string) l1 l2 :
  y ≠ "" → Some id ∉ l1 →
  elements a = l1 ++ Some id :: Some y :: l2 →
  reordered_members a id "down"
  = mkMemberArray (l1 ++ Some y :: Some id :: l2) (minus_one a).
Proof.
  intros Hy Hl1 Hel.
  assert (array_indexOf a id = Z.of_nat (length l1)) as Hidx
    by by apply (array_indexOf_first a id l1 (Some y :: l2)).
  unfold reordered_members. rewrite Hidx.
  change (String.eqb "down" "down") with true.
  change (String.eqb "down" "up") with false. cbv iota.
  replace (Z.of_nat (length l1) + 1) with (Z.of_nat (S (length l1))) by lia.
  rewrite !array_get_nat, Hel.
  rewrite (list_lookup_middle l1 _ (Some id) (length l1)) by done.
  rewrite (lookup_app_r l1) by lia.
  replace (S (length l1) - length l1)%nat with 1%nat by lia.
  cbn [lookup list_lookup mjoin option_join truthy].
  destruct (String.eqb_spec y "") as [|_]; [done|]. cbn [negb].
  rewrite (array_set_nat a) by (rewrite Hel, length_app; simpl; lia).
  rewrite array_set_nat
    by (cbn [elements]; rewrite length_insert, Hel, length_app; simpl; lia).
  cbn [elements minus_one]. by rewrite Hel, swap_in_middle'.
Qed.

(** X16: moving a member up or down swaps it with the neighbour on that
    side and leaves every other element, and the order of the others,
    as they were. *)
Theorem reorder_swaps_with_neighbour (a : MemberArray) (id x : string) l1 l2 :
  x ≠ "" → x ≠ id → Some id ∉ l1 →
  (elements a = l1 ++ Some x :: Some id :: l2 →
   reordered_members a id "up"
   = mkMemberArray (l1 ++ Some id :: Some x :: l2) (minus_one a)) ∧
  (elements a = l1 ++ Some id :: Some x :: l2 →
   reordered_members a id "down"
   = mkMemberArray (l1 ++ Some x :: Some id :: l2) (minus_one a)).
Proof.
  intros Hx Hne Hl1. split; intros Hel.
  - by apply reordered_up.
  - by apply reordered_down.
Qed.

(** X17: moving a member up and then down again gives back the array. *)
Theorem move_up_then_down (a : MemberArray) (id x : string) l1 l2 :
  x ≠ "" → x ≠ id → Some id ∉ l1 →
  elements a = l1 ++ Some x :: Some id :: l2 →
  reordered_members (reordered_members a id "up") id "down" = a.
Proof.
  intros Hx Hne Hl1 Hel.
  rewrite (reordered_up a id x l1 l2) by done.
  rewrite (reordered_down _ id x l1 l2) by done.
  cbn [minus_one]. rewrite <- Hel. by destruct a.
Qed.

(** X18: at the ends nothing moves: the first member of an array without
    a property "-1" cannot go up, the last member cannot go down. *)
Theorem reorder_at_the_ends (a : MemberArray) (id : string) :
  (∀ l, elements a = Some id :: l → minus_one a = None →
     reordered_members a id "up" = a) ∧
  (∀ l1, elements a = l1 ++ [Some id] → Some id ∉ l1 →
     reordered_members a id "down" = a).
Proof.
  split.
  - intros l Hel Hslot.
    assert (array_indexOf a id = 0) as Hidx
      by (apply (array_indexOf_first a id [] l); [done|apply not_elem_of_nil]).
    unfold reordered_members. rewrite Hidx.
    change (String.eqb "up" "down") with false.
    change (String.eqb "up" "up") with true. cbv iota.
    change (0 - 1) with (-1). unfold array_get at 1.
    change (-1 =? -1) with true. cbv iota. by rewrite Hslot.
  - intros l1 Hel Hl1.
    assert (array_indexOf a id = Z.of_nat (length l1)) as Hidx
      by by apply (array_indexOf_first a id l1 []).
    unfold reordered_members. rewrite Hidx.
    change (String.eqb "down" "down") with true.
    change (String.eqb "down" "up") with false. cbv iota.
    replace (Z.of_nat (length l1) + 1) with (Z.of_nat (S (length l1))) by lia.
    rewrite array_get_nat, Hel, lookup_ge_None_2; [done|].
    rewrite length_app. simpl. lia.
Qed.

(** X19: moving down an avatar that is not in the array does not leave
    the array alone: the first member is stored under the property "-1"
    and its place is taken by what that property held, which on a fresh
    array is undefined. *)
Theorem reorder_down_of_non_member (a : MemberArray) (id e : string) tl :
  Some id ∉ elements a →
  elements a = Some e :: tl →
  e ≠ "" →
  reordered_members a id "down" = mkMemberArray (minus_one a :: tl) (Some e).
Proof.
  intros Hno Hel He. unfold reordered_members.
  rewrite (array_indexOf_absent a id Hno).
  change (String.eqb "down" "down") with true.
  change (String.eqb "down" "up") with false. cbv iota.
  change (-1 + 1) with (Z.of_nat 0). rewrite array_get_nat, Hel.
  cbn [lookup list_lookup mjoin option_join truthy].
  destruct (String.eqb_spec e "") as [|_]; [done|]. cbn [negb].
  rewrite (array_set_nat a) by (rewrite Hel; simpl; lia).
  unfold array_get, array_set. change (-1 =? -1) with true. cbv iota.
  cbn [elements minus_one]. by rewrite Hel.
Qed.

Lemma remove_member_first_occurrence_witness :
  modified_members Cases.array "bob.png" true
  = mkMemberArray [Some "alice.png"; Some "carol.png"] None.
Proof.
  apply (proj2 (remove_member_first_occurrence Cases.array "bob.png")
           [Some "alice.png"] [Some "carol.png"] eq_refl).
  intros H%list_elem_of_singleton. discriminate H.
Defined.

Lemma reorder_swaps_with_neighbour_witness :
  reordered_members Cases.array "bob.png" "up"
  = mkMemberArray [Some "bob.png"; Some "alice.png"; Some "carol.png"] None.
Proof.
  apply (proj1 (reorder_swaps_with_neighbour Cases.array "bob.png" "alice.png" []
                  [Some "carol.png"] ltac:(discriminate) ltac:(discriminate)
                  (not_elem_of_nil _))).
  reflexivity.
Defined.

Lemma move_up_then_down_witness :
  reordered_members (reordered_members Cases.array "carol.png" "up") "carol.png" "down"
  = Cases.array.
Proof.
  apply (move_up_then_down Cases.array "carol.png" "bob.png" [Some "alice.png"] []).
  - discriminate.
  - discriminate.
  - intros H%list_elem_of_singleton. discriminate H.
  - reflexivity.
Defined.

Lemma reorder_at_the_ends_witness :
  reordered_members Cases.array "alice.png" "up" = Cases.array.
Proof.
  apply (proj1 (reorder_at_the_ends Cases.array "alice.png")
           [Some "bob.png"; Some "carol.png"]); reflexivity.
Defined.

Lemma reorder_down_of_non_member_witness :
  reordered_members Cases.array "dave.png" "down"
  = mkMemberArray [None; Some "bob.png"; Some "carol.png"] (Some "alice.png").
Proof.
  apply (reorder_down_of_non_member Cases.array "dave.png" "alice.png"
           [Some "bob.png"; Some "carol.png"]).
  - intros H. repeat (apply elem_of_cons in H as [H|H]; [discriminate H|]).
    by apply elem_of_nil in H.
  - reflexivity.
  - discriminate.
Defined.

Lemma indexOf_app_first (l : list string) (id : string) :
  id ∉ l → indexOf (l ++ [id]) id = Z.of_nat (length l).
Proof.
  intros Hno. unfold indexOf. apply findIndex_app_first.
  - intros e He. apply String.eqb_neq. by intros ->.
  - apply String.eqb_refl.
Qed.

(** X20: disabling a member of the open group that was enabled and
    enabling it again gives back the editor state. *)
Theorem disable_then_enable_member id ed g :
  find (has_id (editor_openGroupId ed)) (editor_groups ed) = Some g →
  id ∉ edited_disabled_members g →
  disable_member id ed ≫= enable_member id = Some ed.
Proof.
  intros Hfind Hno. unfold disable_member. rewrite Hfind.
  cbn [mbind option_bind]. unfold enable_member.
  cbn [editor_groups editor_newGroupMembers editor_openGroupId].
  rewrite find_update_found, Hfind by (intros; apply has_id_members).
  cbn [fmap option_fmap option_map]. f_equal.
  rewrite update_found_compose by (intros; apply has_id_members).
  destruct ed as [gs new open]. cbn [editor_groups editor_newGroupMembers
    editor_openGroupId] in *. f_equal.
  clear new. induction gs as [|x gs IH]; [done|].
  cbn [find update_found] in *.
  destruct (has_id open x) eqn:Hx.
  - injection Hfind as ->. cbn [edited_id edited_members edited_disabled_members].
    rewrite indexOf_app_first by done.
    destruct (Z.eqb_spec (Z.of_nat (length (edited_disabled_members g))) (-1))
      as [|_]; [lia|]. cbn [negb].
    rewrite Nat2Z.id.
    replace (delete (length (edited_disabled_members g))
               (edited_disabled_members g ++ [id]))
      with (edited_disabled_members g); [by destruct g|].
    by rewrite (delete_middle (edited_disabled_members g) [] id), app_nil_r.
  - f_equal. by apply IH.
Qed.

Lemma disable_then_enable_member_witness :
  disable_member "bob.png" Cases.editor ≫= enable_member "bob.png" = Some Cases.editor.
Proof.
  apply (disable_then_enable_member "bob.png" Cases.editor
           (mkEditedGroup "g1" Cases.array []) eq_refl).
  apply not_elem_of_nil.
Defined.

(** ** The group avatar *)

Lemma memberAvatars_step characters (getThumbnailUrl : string → string → string)
    (member : string) (acc : list string) :
  match at_index characters (findIndex (has_avatar member) characters) with
  | Some c =>
      if negb (findIndex (has_avatar member) characters =? -1)
         && negb (String.eqb (char_avatar c) "none")
      then acc ++ [getThumbnailUrl "avatar" (char_avatar c)]
      else acc
  | None => acc
  end
  = acc ++ List.map (getThumbnailUrl "avatar")
             (List.filter (displayable characters) [member]).
Proof.
  cbn [List.filter]. unfold displayable.
  destruct (decide (findIndex (has_avatar member) characters = -1)) as [Hi|Hi].
  - rewrite Hi. cbn [at_index Z.ltb Z.compare].
    rewrite bool_decide_eq_false_2; [by rewrite app_nil_r|].
    intros Hr. unfold resolvable in Hr. by apply findIndex_find in Hr.
  - destruct (findIndex_avatar_at characters member Hi) as (c & -> & ->).
    rewrite bool_decide_eq_true_2 by (by apply findIndex_find).
    apply Z.eqb_neq in Hi. rewrite Hi. cbn [negb andb].
    destruct (String.eqb member "none"); cbn [negb List.map];
      by rewrite ?app_nil_r.
Qed.

Lemma memberAvatars_loop_take characters (getThumbnailUrl : string → string → string)
    (members acc : list string) :
  (length acc < 4)%nat →
  memberAvatars_loop characters getThumbnailUrl members acc
  = take 4 (acc ++ List.map (getThumbnailUrl "avatar")
                     (List.filter (displayable characters) members)).
Proof.
  revert acc. induction members as [|member rest IH]; intros acc Hlen.
  - cbn [memberAvatars_loop List.filter List.map]. rewrite app_nil_r.
    by rewrite take_ge by lia.
  - cbn [memberAvatars_loop]. rewrite memberAvatars_step.
    cbn [List.filter]. destruct (displayable characters member).
    + cbn [List.map].
      pose proof (List.length_app acc [getThumbnailUrl "avatar" member]) as Hl.
      cbn [length] in Hl.
      destruct (Nat.eqb_spec (length (acc ++ [getThumbnailUrl "avatar" member])) 4)
        as [H4|H4].
      * set (shown := List.map _ (List.filter _ rest)).
        replace (acc ++ getThumbnailUrl "avatar" member :: shown)
          with ((acc ++ [getThumbnailUrl "avatar" member]) ++ shown)
          by (by rewrite <- app_assoc).
        rewrite take_app_le by lia. by rewrite take_ge by lia.
      * rewrite IH by lia. by rewrite <- app_assoc.
    + cbn [List.map]. rewrite app_nil_r.
      destruct (Nat.eqb_spec (length acc) 4); [lia|]. by apply IH.
Qed.

(** X21: a group whose own picture is no data URL shows the thumbnails
    of its first four displayable members (known characters whose avatar
    is not "none") in stored order, and, when no member is displayable,
    one image: its avatar_url or else the system avatar. *)
Theorem collage_shows_first_four_displayable characters
    (getThumbnailUrl : string → string → string) (isDataURL : option string → bool)
    (default_avatar system_avatar : string) (group : GroupFace) :
  isDataURL (face_avatar_url group) = false →
  getGroupAvatar characters getThumbnailUrl isDataURL default_avatar system_avatar
    (Some group)
  = match take 4 (List.map (getThumbnailUrl "avatar")
                    (List.filter (displayable characters) (face_members group))) with
    | [] => Collage 1 [if truthy (face_avatar_url group)
                       then default "" (face_avatar_url group)
                       else system_avatar]
    | shown => Collage (length shown) shown
    end.
Proof.
  intros Hurl. unfold getGroupAvatar. rewrite Hurl.
  set (shown := take 4 _).
  assert ((if negb (length (face_members group) =? 0)%nat
           then memberAvatars_loop characters getThumbnailUrl (face_members group) []
           else []) = shown) as ->.
  { subst shown. destruct (face_members group) as [|m l] eqn:Hm; [done|].
    cbn [length Nat.eqb negb].
    by rewrite memberAvatars_loop_take by (cbn [length]; lia). }
  assert (length shown ≤ 4)%nat as Hle by (subst shown; rewrite length_take; lia).
  destruct shown as [|s shown']; [done|].
  cbn [length] in *. cbn [Nat.leb andb].
  by destruct (Nat.leb_spec (length shown') 3); [|lia].
Qed.

Lemma collage_shows_first_four_displayable_witness :
  getGroupAvatar Scenario.registry (λ _ file, file) (λ _, false) "default.png" "system.png"
    (Some (mkGroupFace None ["bob.png"; "zoe.png"; "alice.png"]))
  = Collage 2 ["bob.png"; "alice.png"].
Proof.
  apply (collage_shows_first_four_displayable Scenario.registry (λ _ file, file)
           (λ _, false) "default.png" "system.png"
           (mkGroupFace None ["bob.png"; "zoe.png"; "alice.png"])).
  reflexivity.
Defined.

(** ** Loading the groups *)

Lemma elem_of_filter_truthy (l : list (option string)) (m : string) :
  m ∈ filter_truthy l ↔ m ≠ "" ∧ Some m ∈ l.
Proof.
  unfold filter_truthy. rewrite list_elem_of_omap. split.
  - intros (x & Hx & Hm). destruct x as [s|]; [|done].
    cbn [truthy] in Hm. destruct (String.eqb_spec s ""); [done|].
    by injection Hm as ->.
  - intros [Hne Hin]. exists (Some m). split; [done|].
    cbn [truthy]. by destruct (String.eqb_spec m "").
Qed.

Lemma no_number_after_String (String_of_number : Z → string) (l : list Id) :
  existsb is_number (List.map (String_of String_of_number) l) = false.
Proof. induction l as [|[n|s] l IH]; done. Qed.

(** X22: converting a legacy group (one without chat_id) replaces its
    member names by avatars: the new member list has no duplicate, and
    holds exactly the non-empty avatars of the first character found under
    each name; names of unknown characters are dropped. *)
Theorem legacy_members_become_avatars characters (String_of_number : Z → string)
    (group : StoredGroup) :
  stored_chat_id group = None →
  NoDup (stored_members (convert_group characters String_of_number group))
  ∧ ∀ m, m ∈ stored_members (convert_group characters String_of_number group)
      ↔ m ≠ "" ∧ ∃ x c, x ∈ stored_members group
                      ∧ find (λ y, String.eqb (char_name y) x) characters = Some c
                      ∧ char_avatar c = m.
Proof.
  intros Hlegacy. unfold convert_group. rewrite Hlegacy. cbn [stored_members].
  split; [apply NoDup_filter_onlyUnique|].
  intros m. rewrite elem_of_filter_onlyUnique, elem_of_filter_truthy.
  apply and_iff_compat_l. rewrite list_elem_of_In, in_map_iff. split.
  - intros (x & Hx & Hin%list_elem_of_In). exists x.
    destruct (find _ characters) as [c|]; [|done].
    injection Hx as <-. by exists c.
  - intros (x & c & Hin & Hfind & <-). exists x.
    rewrite Hfind. by rewrite <- list_elem_of_In.
Qed.

Lemma legacy_members_become_avatars_witness :
  stored_members
    (convert_group Scenario.registry (λ _, "1")
       (mkStoredGroup (Num 1) ["Bob"; "Zoe"; "Alice"; "Bob"] None None None None))
  = ["bob.png"; "alice.png"]
  ∧ NoDup ["bob.png"; "alice.png"].
Proof.
  split; [reflexivity|].
  apply (legacy_members_become_avatars Scenario.registry (λ _, "1")
           (mkStoredGroup (Num 1) ["Bob"; "Zoe"; "Alice"; "Bob"] None None None None)
           eq_refl).
Defined.

(** X23: whatever the server returned, a converted group is in the new
    format: disabled_members, chat_id and past_metadata are present, and
    neither chat_id nor any entry of chats is a number. *)
Theorem getGroups_brings_new_format characters (String_of_number : Z → string)
    (group : StoredGroup) :
  new_format (convert_group characters String_of_number group).
Proof.
  destruct group as [id members disabled chat_id chats past].
  unfold new_format, convert_group.
  cbn [stored_id stored_members stored_disabled_members stored_chat_id stored_chats
       stored_past_metadata].
  assert (∀ l l', (if existsb is_number l
                   then Some (List.map (String_of String_of_number) l)
                   else Some l) = Some l' → existsb is_number l' = false) as Hchats.
  { intros l l'. destruct (existsb is_number l) eqn:Hl; intros [= <-]; [|done].
    apply no_number_after_String. }
  destruct chat_id as [[n|s]|];
    cbn [stored_disabled_members stored_chat_id stored_chats stored_past_metadata].
  - split; [by destruct disabled|]. split; [by eexists|].
    split; [by destruct past|]. intros l'. destruct chats as [l|]; [|done].
    apply Hchats.
  - split; [by destruct disabled|]. split; [by eexists|].
    split; [by destruct past|]. intros l'. destruct chats as [l|]; [|done].
    apply Hchats.
  - split; [by destruct disabled|].
    split; [destruct id; by eexists|].
    split; [by destruct past|]. intros l'. apply Hchats.
Qed.

(** X24: a group already in the new format is left as it is. *)
Theorem new_format_is_unchanged characters (String_of_number : Z → string)
    (group : StoredGroup) :
  new_format group → convert_group characters String_of_number group = group.
Proof.
  destruct group as [id members disabled chat_id chats past].
  unfold new_format, convert_group.
  cbn [stored_id stored_members stored_disabled_members stored_chat_id stored_chats
       stored_past_metadata].
  intros ([d ->] & [s ->] & [m ->] & Hchats).
  destruct chats as [l|]; [|done]. by rewrite (Hchats l eq_refl).
Qed.

Lemma new_format_is_unchanged_witness :
  convert_group Scenario.registry (λ _, "1")
    (mkStoredGroup (Str "1") ["bob.png"] (Some []) (Some (Str "1")) (Some [Str "1"])
       (Some ∅))
  = mkStoredGroup (Str "1") ["bob.png"] (Some []) (Some (Str "1")) (Some [Str "1"])
      (Some ∅).
Proof.
  apply (new_format_is_unchanged Scenario.registry (λ _, "1")
           (mkStoredGroup (Str "1") ["bob.png"] (Some []) (Some (Str "1"))
              (Some [Str "1"]) (Some ∅))).
  split; [by eexists|]. split; [by eexists|]. split; [by eexists|].
  by intros l [= <-].
Defined.

(** ** Renaming a chat of a group *)

Lemma update_found_ext {A} (p : A → bool) (f g : A → A) (l : list A) (x : A) :
  find p l = Some x → f x = g x → update_found p f l = update_found p g l.
Proof.
  intros Hfind Hfg. induction l as [|y l IH]; [done|].
  cbn [find update_found] in *. destruct (p y).
  - injection Hfind as ->. by rewrite Hfg.
  - f_equal. by apply IH.
Qed.

Lemma includes_true (l : list string) (x : string) : x ∈ l → includes l x = true.
Proof. intros H. unfold includes. by apply bool_decide_eq_true_2. Qed.




(** X26: renaming a chat to the name it already has is no no-op: the
    chat moves to the end of the group's list and the metadata stored for
    it is discarded; the current chat stays. *)
Theorem rename_to_same_name groups groupId chatId group :
  find (is_group groupId) groups = Some group →
  chatId ∈ cg_chats group →
  renameGroupChat groups groupId chatId chatId
  = update_found (is_group groupId)
      (λ g, mkChatGroup (cg_id g) (cg_chat_id g) (moved_to_end (cg_chats g) chatId)
              (delete chatId (cg_past_metadata g)))
      groups.
Proof.
  intros Hfind Hin. unfold renameGroupChat.
  rewrite Hfind, includes_true by done. cbn [negb].
  apply (update_found_ext _ _ _ _ group Hfind). unfold moved_to_end. f_equal.
  - by destruct (String.eqb_spec (cg_chat_id group) chatId).
  - apply delete_insert_eq.
Qed.

Lemma rename_to_same_name_witness :
  renameGroupChat [mkChatGroup "g1" "a" ["a"; "b"] {[ "a" := ∅ ]}] "g1" "a" "a"
  = [mkChatGroup "g1" "a" ["b"; "a"] (delete "a" {[ "a" := ∅ ]})].
Proof.
  etrans;
    [apply (rename_to_same_name [mkChatGroup "g1" "a" ["a"; "b"] {[ "a" := ∅ ]}]
              "g1" "a" (mkChatGroup "g1" "a" ["a"; "b"] {[ "a" := ∅ ]}) eq_refl)
    |reflexivity].
  by left.
Defined.
